(** * Signed-merch search: change detection and notification commit

    A shallow embedding of [sites/base.py] ([ProductChecker]) and of
    [sites/taylor_swift.py] ([TaylorSwiftChecker]): the seen-set files,
    the fetch boundary, the classification loop of [run], the e-mail
    attempts and the writes that follow them.

    One polling cycle is a computation in a state-and-exception monad over
    a [World] that holds the files of the site and the record of the SMTP
    attempts.  What the cycle reads from outside (the network, the
    clock, the behaviour of the SMTP server) is passed in as an
    environment. *)

From Stdlib Require Import Ascii ZArith.
From Stdlib Require SpecFloat.
From stdpp Require Import gmap strings list pretty.

Set Warnings "-clear-no-such-hyp".
Set Warnings "-register-all".
Local Open Scope string_scope.
Local Open Scope list_scope.
Local Open Scope stdpp_scope.

(** ** Python values *)

(** An exception, with the text [str(e)] that the handlers log. *)
Inductive exn := Exception (msg : string).

Definition exn_text (e : exn) : string := let 'Exception m := e in m.

Inductive outcome (A : Type) :=
| Return (a : A)
| Raise (e : exn).
Arguments Return {A} a.
Arguments Raise {A} e.

Global Instance outcome_ret : MRet outcome := λ A a, Return a.

Global Instance outcome_bind : MBind outcome := λ A B k o,
  match o with
  | Return a => k a
  | Raise e => Raise e
  end.

Global Instance outcome_fmap : FMap outcome := λ A B f o,
  match o with
  | Return a => Return (f a)
  | Raise e => Raise e
  end.

(** A [for x in l] loop over an accumulator, which an exception leaves. *)
Fixpoint for_each {A B} (body : A → B → outcome A) (l : list B) (acc : A)
    : outcome A :=
  match l with
  | [] => Return acc
  | x :: rest => acc ← body acc x; for_each body rest acc
  end.

(** *** Floats *)

(** A Python [float] is an IEEE 754 binary64 number.  Every finite one is
    a whole multiple of [2^-1074], the least positive one: [Finite n] is
    the number [n * 2^-1074] and [NegZero] is [-0.0].  The floats are the
    [Finite n] that [round] below leaves as they are, with [NegZero], the
    infinities and [NaN]; the operations are defined on every [Finite n]
    and give floats. *)
Inductive float :=
| Finite (n : Z)
| NegZero
| Infinity (negative : bool)
| NaN.

(** The float of a whole number that needs no rounding. *)
Definition whole (z : Z) : float := Finite (z * 2 ^ 1074).

(** The exponent of the unit in the last place of the 53-bit significand
    of a magnitude [a], in units of [2^-1074]: 0 up to [2^53], where the
    spacing of the floats is one unit. *)
Definition ulp_exponent (a : Z) : Z := Z.max 0 (Z.log2 a - 52).

(** The multiple of [2^k] nearest to [a ≥ 0], the even one of two that are
    equally near. *)
Definition round_to (k a : Z) : Z :=
  let q := (a / 2 ^ k)%Z in
  let r := (a mod 2 ^ k)%Z in
  if (2 ^ k <? 2 * r)%Z || ((2 * r =? 2 ^ k)%Z && Z.odd q)
  then ((q + 1) * 2 ^ k)%Z
  else (q * 2 ^ k)%Z.

Definition round_half_even (a : Z) : Z := round_to (ulp_exponent a) a.

(** The float nearest to [n * 2^-1074]: round to nearest, ties to even,
    and to an infinity from [2^1024] on. *)
Definition round (n : Z) : float :=
  let m := round_half_even (Z.abs n) in
  if (2 ^ 2098 <=? m)%Z then Infinity (n <? 0)%Z
  else Finite (Z.sgn n * m).

(** [x - y] *)
Definition float_sub (x y : float) : float :=
  match x, y with
  | NaN, _ | _, NaN => NaN
  | Infinity a, Infinity b => if Bool.eqb a b then NaN else Infinity a
  | Infinity a, _ => Infinity a
  | _, Infinity b => Infinity (negb b)
  | NegZero, NegZero => Finite 0
  | NegZero, Finite m => if (m =? 0)%Z then NegZero else round (- m)
  | Finite n, NegZero => round n
  | Finite n, Finite m => round (n - m)
  end.

(** [x <= y] *)
Definition float_le (x y : float) : bool :=
  match x, y with
  | NaN, _ | _, NaN => false
  | Infinity true, _ | _, Infinity false => true
  | Infinity false, _ | _, Infinity true => false
  | Finite n, Finite m => (n <=? m)%Z
  | Finite n, NegZero => (n <=? 0)%Z
  | NegZero, Finite m => (0 <=? m)%Z
  | NegZero, NegZero => true
  end.

(** [x >= z] for an [int] [z]: Python compares the two exactly. *)
Definition float_ge_int (x : float) (z : Z) : bool :=
  match x with
  | NaN => false
  | Infinity negative => negb negative
  | NegZero => (z <=? 0)%Z
  | Finite n => (z * 2 ^ 1074 <=? n)%Z
  end.

(** The conversion of an [int] operand of a float operation: the nearest
    float, [OverflowError] beyond the floats. *)
Definition float_of_int (z : Z) : outcome float :=
  match round (z * 2 ^ 1074) with
  | Infinity _ => Raise (Exception "int too large to convert to float")
  | x => Return x
  end.

(** *** What [json.load] returns *)

Inductive value :=
| VNone
| VBool (b : bool)
| VInt (z : Z)
| VFloat (x : float)
| VStr (s : string)
| VList (items : list value)
| VDict (entries : gmap string value).

(** [type(v).__name__] *)
Definition type_name (v : value) : string :=
  match v with
  | VNone => "NoneType"
  | VBool _ => "bool"
  | VInt _ => "int"
  | VFloat _ => "float"
  | VStr _ => "str"
  | VList _ => "list"
  | VDict _ => "dict"
  end.

(** [d.get(key, fallback)]: only a dict has the method. *)
Definition get (d : value) (key : string) (fallback : value) : outcome value :=
  match d with
  | VDict entries => Return (default fallback (entries !! key))
  | _ =>
      Raise (Exception ("'" +:+ type_name d
                        +:+ "' object has no attribute 'get'"))
  end.

(** [d[key] = v] for a string [key] *)
Definition setitem (d : value) (key : string) (v : value) : outcome value :=
  match d with
  | VDict entries => Return (VDict (<[ key := v ]> entries))
  | VList _ =>
      Raise (Exception "list indices must be integers or slices, not str")
  | _ =>
      Raise (Exception ("'" +:+ type_name d
                        +:+ "' object does not support item assignment"))
  end.

(** [x - v] for a float [x]: [v] has to be a number, and a [bool] is
    one. *)
Definition float_minus (x : float) (v : value) : outcome float :=
  match v with
  | VFloat y => Return (float_sub x y)
  | VInt z => y ← float_of_int z; Return (float_sub x y)
  | VBool b => y ← float_of_int (Z.b2z b); Return (float_sub x y)
  | _ =>
      Raise (Exception ("unsupported operand type(s) for -: 'float' and '"
                        +:+ type_name v +:+ "'"))
  end.

(** [s.split(sep)[0]] for a one-character separator: the text before its
    first occurrence, all of [s] when there is none. *)
Fixpoint split_first (sep : Ascii.ascii) (s : string) : string :=
  match s with
  | EmptyString => EmptyString
  | String c rest =>
      if Ascii.eqb c sep then EmptyString else String c (split_first sep rest)
  end.

(** ["=" * 50] and the like. *)
Fixpoint str_repeat (s : string) (n : nat) : string :=
  match n with
  | O => EmptyString
  | S k => s +:+ str_repeat s k
  end.

(** The one-character string ["\n"]. *)
Definition nl : string := String "010"%char EmptyString.

(** ["\n".join(lines)] *)
Fixpoint join_lines (lines : list string) : string :=
  match lines with
  | [] => EmptyString
  | [l] => l
  | l :: rest => l +:+ nl +:+ join_lines rest
  end.

(** ** Listings *)

(** The dict built by the adapters.  [is_signed] and [is_available] are
    read with [product.get(...)], so an absent flag is falsy: [false]. *)
Record Product := {
  title : string;
  price : string;
  url : string;
  image_url : string;
  is_signed : bool;
  is_available : bool
}.

(** [product['url'].split('?')[0]] *)
Definition clean_url (product : Product) : string :=
  split_first "?"%char (url product).

(** ** Files, mail and the world of one site *)

(** What opening and decoding a path gives: no such path, an exception
    anywhere in [open] / [json.load] / the conversion of the result, or
    the decoded value: a list of keys for the seen set, and for the
    signed items whatever value the JSON text in the file stands for,
    which [_load_signed_seen] returns as it is. *)
Inductive file (A : Type) :=
| Absent
| Damaged (e : exn)
| Stored (a : A).
Arguments Absent {A}.
Arguments Damaged {A} e.
Arguments Stored {A} a.

Record Email := { subject : string; body : string }.

Record World := {
  seen_products_file : file (list string);
  signed_seen_file : file value;
  lock_file : option string;
  log_file : list string;
  (** every message that [send_email] took to the server, oldest first,
      with what [send_email] returned for it *)
  smtp_attempts : list (Email * bool)
}.

Definition set_seen_products_file (f : file (list string)) (w : World) : World :=
  {| seen_products_file := f; signed_seen_file := signed_seen_file w;
     lock_file := lock_file w; log_file := log_file w;
     smtp_attempts := smtp_attempts w |}.

Definition set_signed_seen_file (f : file value) (w : World) : World :=
  {| seen_products_file := seen_products_file w; signed_seen_file := f;
     lock_file := lock_file w; log_file := log_file w;
     smtp_attempts := smtp_attempts w |}.

Definition set_lock_file (c : string) (w : World) : World :=
  {| seen_products_file := seen_products_file w;
     signed_seen_file := signed_seen_file w;
     lock_file := Some c; log_file := log_file w;
     smtp_attempts := smtp_attempts w |}.

Definition add_log_line (l : string) (w : World) : World :=
  {| seen_products_file := seen_products_file w;
     signed_seen_file := signed_seen_file w;
     lock_file := lock_file w; log_file := log_file w ++ [l];
     smtp_attempts := smtp_attempts w |}.

Definition add_log_lines (ls : list string) (w : World) : World :=
  {| seen_products_file := seen_products_file w;
     signed_seen_file := signed_seen_file w;
     lock_file := lock_file w; log_file := log_file w ++ ls;
     smtp_attempts := smtp_attempts w |}.

Definition add_smtp_attempt (a : Email * bool) (w : World) : World :=
  {| seen_products_file := seen_products_file w;
     signed_seen_file := signed_seen_file w;
     lock_file := lock_file w; log_file := log_file w;
     smtp_attempts := smtp_attempts w ++ [a] |}.

(** ** The monad of a cycle: state, and exceptions that keep the state *)

Definition M (A : Type) : Type := World → outcome A * World.

Global Instance M_ret : MRet M := λ A a w, (Return a, w).

Global Instance M_bind : MBind M := λ A B k m w,
  match m w with
  | (Return a, w') => k a w'
  | (Raise e, w') => (Raise e, w')
  end.

(** [try: body / except Exception as e: handler e] *)
Definition try_except {A} (body : M A) (handler : exn → M A) : M A := λ w,
  match body w with
  | (Return a, w') => (Return a, w')
  | (Raise e, w') => handler e w'
  end.

Definition raise {A} (e : exn) : M A := λ w, (Raise e, w).
Definition modify (f : World → World) : M unit := λ w, (Return tt, f w).
Definition gets {A} (f : World → A) : M A := λ w, (Return (f w), w).

(** [path.exists()] *)
Definition path_exists {A} (path : World → file A) : M bool :=
  f ← gets path;
  mret (match f with Absent => false | _ => true end).

(** [with open(path, 'r') as f: ... json.load(f) ...] up to the decoded
    value *)
Definition open_and_load {A} (path : World → file A) : M A :=
  f ← gets path;
  match f with
  | Absent => raise (Exception "No such file or directory")
  | Damaged e => raise e
  | Stored a => mret a
  end.

(** [self.log(message)]: the line appended to the log file, without the
    time prefix. *)
Definition log (message : string) : M unit := modify (add_log_line message).

(** ** [ProductChecker]: the store *)

Definition load_seen_products : M (gset string) :=
  present ← path_exists seen_products_file;
  if present : bool then
    try_except
      (l ← open_and_load seen_products_file; mret (list_to_set l))
      (λ _, mret ∅)
  else mret ∅.

Definition save_seen_products (seen_products : gset string) : M unit :=
  modify (set_seen_products_file (Stored (elements seen_products))).

(** ** [ProductChecker]: what a site has to provide *)

(** What one [requests.get] does. *)
Inductive http_reply :=
| RequestFailed (e : exn)
| Response (status_code : Z) (text : string).

(** What the network answers in one cycle to a request for a URL, the
    URL taken before its cache-buster [t=...] is added. *)
Definition network : Type := string → http_reply.

(** The abstract members of the base class.  [parse_products] receives the
    text of the reply, which the source first wraps in a [BeautifulSoup].
    The parsers of the repository call [self.log] and some of them request
    further pages ([BanquetRecordsChecker._check_product_page]): a parser
    is given the network and returns the lines it logs, in order, with its
    result. *)
Class Site := {
  site_name : string;
  search_url : string;
  base_url : string;
  parse_products : network → string → list string * outcome (list Product);
  get_email_subject : list Product → string → string;
  get_email_intro : string
}.

(** What the Shopify adapter gets for one page of [products.json]:
    [PageError] when [requests.get] or [r.json()] raises, otherwise the
    status code, the listings that the page added to [all_products] and the
    exception, if any, that stopped the conversion of the page. *)
Inductive page_reply :=
| PageError (e : exn)
| Page (status_code : Z) (converted : list Product) (stopped : option exn).

(** What the [with smtplib.SMTP_SSL ...] block of [send_email] does with
    a message.  It goes through; or connecting, [login] or [sendmail]
    raises; or [sendmail] returns, the line about success is logged, and
    leaving the block raises: [SMTP.__exit__] sends QUIT and raises
    [SMTPResponseException] on a reply other than 221. *)
Inductive smtp_reply :=
| Accepted
| Refused (e : exn)
| SentThenRaised (e : exn).

(** What a cycle reads from outside: [time.strftime(...)] and [time.time()]
    at its start, the network that the base class and its parsers reach,
    the replies to the successive page requests of the Shopify adapter, and
    the SMTP server. *)
Record Env := {
  timestamp : string;
  now : float;
  http : network;
  shopify : list page_reply;
  smtp : Email → smtp_reply
}.

Definition lift {A} (o : outcome A) : M A := λ w, (o, w).

Section ProductChecker.
Context `{Site}.

Definition fetch_products (net : network) : M (list Product) :=
  try_except
    (match net search_url with
     | RequestFailed e => raise e
     | Response status_code text =>
         if decide (status_code ≠ 200%Z) then
           log ("ERROR: Status code " +:+ pretty status_code);;
           mret []
         else
           let '(lines, result) := parse_products net text in
           modify (add_log_lines lines);;
           lift result
     end)
    (λ e, log ("ERROR fetching products: " +:+ exn_text e);; mret []).

Definition send_email (server : Email → smtp_reply)
    (subject body : string) : M bool :=
  try_except
    (let msg := {| subject := subject; body := body |} in
     log "Connecting to SMTP server...";;
     match server msg with
     | Refused e => modify (add_smtp_attempt (msg, false));; raise e
     | Accepted =>
         modify (add_smtp_attempt (msg, true));;
         log "Email sent successfully!";;
         mret true
     | SentThenRaised e =>
         modify (add_smtp_attempt (msg, false));;
         log "Email sent successfully!";;
         raise e
     end)
    (λ e, log ("Failed to send email: " +:+ exn_text e);; mret false).

(** [enumerate(l, i)] *)
Fixpoint enumerate {A} (i : nat) (l : list A) : list (nat * A) :=
  match l with
  | [] => []
  | x :: rest => (i, x) :: enumerate (S i) rest
  end.

Definition product_lines (entry : nat * Product) : list string :=
  let '(i, product) := entry in
  [ pretty i +:+ ". " +:+ title product;
    "   Price: " +:+ price product;
    "   Link: " +:+ url product;
    "" ].

Definition build_email_body (new_products : list Product) : string :=
  join_lines
    ([ get_email_intro; str_repeat "=" 50; "" ]
     ++ concat (product_lines <$> enumerate 1 new_products)
     ++ [ str_repeat "=" 50;
          nl +:+ "Search page: " +:+ search_url;
          nl +:+ "(You will only be notified about NEW items)" ]).

(** One turn of the [for product in products] loop of [run], on the pair
    [(new_products, all_current_urls)]. *)
Definition scan_step (seen_products : gset string)
    (acc : list Product * gset string) (product : Product)
    : list Product * gset string :=
  let '(new_products, all_current_urls) := acc in
  let all_current_urls := all_current_urls ∪ {[ clean_url product ]} in
  if decide (clean_url product ∉ seen_products)
  then (new_products ++ [product], all_current_urls)
  else (new_products, all_current_urls).

Definition scan (seen_products : gset string) (products : list Product)
    : list Product * gset string :=
  fold_left (scan_step seen_products) products ([], ∅).

Definition run (env : Env) : M unit :=
  seen_products ← load_seen_products;
  products ← fetch_products (http env);
  match products with
  | [] => log "No products found or fetch failed"
  | _ :: _ =>
      let '(new_products, all_current_urls) := scan seen_products products in
      match new_products with
      | _ :: _ =>
          let subject := get_email_subject new_products (timestamp env) in
          let body := build_email_body new_products in
          sent ← send_email (smtp env) subject body;
          if sent : bool then
            let seen_products := seen_products ∪ all_current_urls in
            save_seen_products seen_products;;
            log ("Updated seen products with "
                 +:+ pretty (size all_current_urls) +:+ " URLs");;
            modify (set_lock_file
                      ("sent at " +:+ timestamp env +:+ nl +:+ "New items: "
                       +:+ pretty (length new_products)))
          else mret tt
      | [] =>
          log ("OK - " +:+ pretty (length products)
               +:+ " items, no new products");;
          save_seen_products seen_products
      end
  end.
End ProductChecker.

(** ** [TaylorSwiftChecker] *)

Module TaylorSwift.

Definition SIGNED_COOLDOWN_SECONDS : Z := 2 * 60 * 60.

#[export] Instance site : Site := {|
  site_name := "Taylor Swift";
  search_url := "https://store.taylorswift.com/products.json?limit=250";
  base_url := "https://store.taylorswift.com";
  parse_products := λ _ _, ([], Return []);
  get_email_subject := λ new_products timestamp,
    "🎵 " +:+ pretty (length new_products)
    +:+ " New Taylor Swift Store Item(s)! - " +:+ timestamp;
  get_email_intro :=
    "New items just appeared in the Taylor Swift Official Store!" +:+ nl
|}.

Definition _load_signed_seen : M value :=
  present ← path_exists signed_seen_file;
  if present : bool then
    try_except (open_and_load signed_seen_file) (λ _, mret (VDict ∅))
  else mret (VDict ∅).

Definition _save_signed_seen (data : value) : M unit :=
  modify (set_signed_seen_file (Stored data)).

(** The [while True] loop of [fetch_products], one reply per turn.  A
    script of replies that runs out stands for a page without
    products. *)
Fixpoint fetch_pages (replies : list page_reply) (page : nat)
    (all_products : list Product) : M (list Product) :=
  match replies with
  | [] => mret all_products
  | PageError e :: _ =>
      log ("ERROR fetching page " +:+ pretty page +:+ ": " +:+ exn_text e);;
      mret all_products
  | Page status_code converted stopped :: rest =>
      if decide (status_code ≠ 200%Z) then
        log ("ERROR: Status code " +:+ pretty status_code
             +:+ " on page " +:+ pretty page);;
        mret all_products
      else
        match converted, stopped with
        | [], None => mret all_products
        | _, Some e =>
            log ("ERROR fetching page " +:+ pretty page +:+ ": "
                 +:+ exn_text e);;
            mret (all_products ++ converted)
        | _, None =>
            log ("Page " +:+ pretty page +:+ ": fetched "
                 +:+ pretty (length converted) +:+ " products");;
            fetch_pages rest (S page) (all_products ++ converted)
        end
  end.

Definition fetch_products (replies : list page_reply) : M (list Product) :=
  all_products ← fetch_pages replies 1 [];
  log ("Total: " +:+ pretty (length all_products) +:+ " products fetched");;
  mret all_products.

Definition signed_lines (entry : nat * Product) : list string :=
  let '(i, product) := entry in
  [ pretty i +:+ ". " +:+ title product;
    "   Price: " +:+ price product;
    "   Link: " +:+ url product;
    "   Status: "
      +:+ (if is_available product then "✅ IN STOCK" else "❌ Sold Out");
    "" ].

Definition _build_signed_email (signed_products : list Product) : string :=
  join_lines
    ([ "🚨 SIGNED TAYLOR SWIFT ITEMS ARE IN STOCK! 🚨";
       "";
       "GO GO GO! These signed items are currently showing as AVAILABLE:";
       "";
       str_repeat "=" 50;
       "" ]
     ++ concat (signed_lines <$> enumerate 1 signed_products)
     ++ [ str_repeat "=" 50;
          nl +:+ "Store: " +:+ base_url;
          nl +:+ "(You will be re-alerted every 2 hours while items remain in stock)" ]).

(** The three lists that the [for product in products] loop of [run]
    fills. *)
Record Categories := {
  new_products : list Product;
  signed_in_stock : list Product;
  all_current_urls : gset string
}.

(** [last_alerted = signed_seen.get(clean_url, 0)] followed by
    [(now - last_alerted) >= SIGNED_COOLDOWN_SECONDS] *)
Definition past_cooldown (signed_seen : value) (now : float)
    (clean_url : string) : outcome bool :=
  last_alerted ← get signed_seen clean_url (VInt 0);
  elapsed ← float_minus now last_alerted;
  Return (float_ge_int elapsed SIGNED_COOLDOWN_SECONDS).

(** One turn of the [for product in products] loop of [run]. *)
Definition categorize_step (seen_products : gset string)
    (signed_seen : value) (now : float)
    (acc : Categories) (product : Product) : outcome Categories :=
  let clean := clean_url product in
  let all_current_urls := all_current_urls acc ∪ {[ clean ]} in
  let new_products :=
    if decide (clean ∉ seen_products)
    then new_products acc ++ [product]
    else new_products acc in
  if is_signed product && is_available product then
    due ← past_cooldown signed_seen now clean;
    Return {| all_current_urls := all_current_urls;
              new_products := new_products;
              signed_in_stock :=
                if due : bool
                then signed_in_stock acc ++ [product]
                else signed_in_stock acc |}
  else
    Return {| all_current_urls := all_current_urls;
              new_products := new_products;
              signed_in_stock := signed_in_stock acc |}.

Definition categorize (seen_products : gset string)
    (signed_seen : value) (now : float) (products : list Product)
    : outcome Categories :=
  for_each (categorize_step seen_products signed_seen now) products
    {| new_products := []; signed_in_stock := []; all_current_urls := ∅ |}.

(** [for p in signed_in_stock: signed_seen[p['url'].split('?')[0]] = now] *)
Definition mark_alerted (now : float) (signed_in_stock : list Product)
    (signed_seen : value) : outcome value :=
  for_each (λ d p, setitem d (clean_url p) (VFloat now))
    signed_in_stock signed_seen.

(** [{p['url'].split('?')[0] for p in signed_in_stock}] *)
Definition signed_urls (signed_in_stock : list Product) : gset string :=
  list_to_set (clean_url <$> signed_in_stock).

(** [[p for p in new_products if p['url'].split('?')[0] not in signed_urls]] *)
Definition new_non_signed (new_products signed_in_stock : list Product)
    : list Product :=
  filter (λ p, clean_url p ∉ signed_urls signed_in_stock) new_products.

Definition run (env : Env) : M unit :=
  seen_products ← load_seen_products;
  signed_seen ← _load_signed_seen;
  products ← fetch_products (shopify env);
  match products with
  | [] => log "No products found or fetch failed"
  | _ :: _ =>
      c ← lift (categorize seen_products signed_seen (now env) products);
      match signed_in_stock c with
      | _ :: _ =>
          let subject :=
            "🚨 SIGNED Taylor Swift Items IN STOCK! - "
            +:+ pretty (length (signed_in_stock c)) +:+ " item(s) - "
            +:+ timestamp env in
          let body := _build_signed_email (signed_in_stock c) in
          sent ← send_email (smtp env) subject body;
          if sent : bool then
            signed_seen ←
              lift (mark_alerted (now env) (signed_in_stock c) signed_seen);
            _save_signed_seen signed_seen;;
            log ("SIGNED ALERT sent for "
                 +:+ pretty (length (signed_in_stock c)) +:+ " item(s)")
          else mret tt
      | [] => mret tt
      end;;
      match new_products c with
      | _ :: _ =>
          let new_non_signed :=
            new_non_signed (new_products c) (signed_in_stock c) in
          match new_non_signed with
          | _ :: _ =>
              let subject :=
                get_email_subject new_non_signed (timestamp env) in
              let body := build_email_body new_non_signed in
              sent ← send_email (smtp env) subject body;
              if sent : bool then
                log ("NEW ITEMS alert sent for "
                     +:+ pretty (length new_non_signed) +:+ " item(s)")
              else mret tt
          | [] => mret tt
          end;;
          let seen_products := seen_products ∪ all_current_urls c in
          save_seen_products seen_products;;
          log ("Updated seen products ("
               +:+ pretty (size (all_current_urls c)) +:+ " total)")
      | [] =>
          log ("OK - " +:+ pretty (length products)
               +:+ " items, no new products");;
          save_seen_products seen_products
      end
  end.

End TaylorSwift.

(** ** [ProductChecker]: the names of the files of a site *)

(** [s.replace(old, new)] for a one-character [old]. *)
Fixpoint replace_char (old : Ascii.ascii) (new : string) (s : string)
    : string :=
  match s with
  | EmptyString => EmptyString
  | String c rest =>
      if Ascii.eqb c old
      then new +:+ replace_char old new rest
      else String c (replace_char old new rest)
  end.

(** The last components of the paths of a site: the files are
    [SEEN_DIR / seen_products_name] and so on, the log is
    [LOGS_DIR / log_name].  [str.lower] is a parameter. *)
Section FileNames.
Context `{Site}.
Variable lower : string → string.

Definition _safe_name : string :=
  replace_char "'" "" (replace_char " " "_" (lower site_name)).

Definition seen_products_name : string := _safe_name +:+ "_seen.json".
Definition lock_name : string := _safe_name +:+ "_sent.lock".
Definition log_name : string := _safe_name +:+ ".log".
Definition _signed_seen_name : string := _safe_name +:+ "_signed_seen.json".
End FileNames.

(** ** [run_checker.py] *)

Module RunChecker.

(** The registry, in the order of the dict literal. *)
Definition CHECKERS : list (string * (string * string)) :=
  [ ("jonas", ("sites.jonas_brothers", "JonasBrothersChecker"));
    ("noah", ("sites.banquet_records", "NoahKahanChecker"));
    ("noah-store", ("sites.noah_kahan_store", "NoahKahanStoreChecker"));
    ("benson", ("sites.benson_boone", "BensonBooneChecker"));
    ("gracie", ("sites.gracie_abrams", "GracieAbramsChecker"));
    ("rolemodel", ("sites.role_model", "RoleModelChecker"));
    ("taylor", ("sites.taylor_swift", "TaylorSwiftChecker")) ].

Definition DEFAULT_SITES : list string :=
  [ "jonas"; "noah"; "noah-store"; "benson"; "gracie"; "rolemodel"; "taylor" ].

(** What [argparse] hands to [main]. *)
Record Args := {
  arg_sites : list string;
  arg_list : bool;
  arg_quiet : bool;
  arg_all : bool
}.

(** What the process does that can be seen from outside: the lines it
    prints and the checkers it starts, [checker = CheckerClass(quiet=...)]
    followed by [checker.run()]. *)
Inductive event :=
| Print (line : string)
| Run (module_name class_name : string) (quiet : bool).

(** How a piece of the script ends: with a value, in [sys.exit], or in an
    exception that nothing catches. *)
Inductive ending (A : Type) :=
| Done (a : A)
| Exit (code : Z)
| Uncaught (e : exn).
Arguments Done {A} a.
Arguments Exit {A} code.
Arguments Uncaught {A} e.

(** The events so far and the ending. *)
Definition Proc (A : Type) : Type := list event * ending A.

#[export] Instance Proc_ret : MRet Proc := λ A a, ([], Done a).

#[export] Instance Proc_bind : MBind Proc := λ A B k m,
  match m with
  | (events, Done a) => let '(more, e) := k a in (events ++ more, e)
  | (events, Exit code) => (events, Exit code)
  | (events, Uncaught e) => (events, Uncaught e)
  end.

Definition print (line : string) : Proc unit := ([Print line], Done tt).
Definition sys_exit {A} (code : Z) : Proc A := ([], Exit code).

(** [CHECKERS[key]], [None] for [key not in CHECKERS] *)
Fixpoint lookup_checker (key : string)
    (registry : list (string * (string * string)))
    : option (string * string) :=
  match registry with
  | [] => None
  | (k, entry) :: rest =>
      if decide (k = key) then Some entry else lookup_checker key rest
  end.

(** [sep.join(l)] *)
Fixpoint join (sep : string) (l : list string) : string :=
  match l with
  | [] => EmptyString
  | [x] => x
  | x :: rest => x +:+ sep +:+ join sep rest
  end.

(** The import machinery is a parameter: [None] when
    [getattr(importlib.import_module(module_name), class_name)] gives the
    class, the exception otherwise.  So is what a checker does:
    [None] when [CheckerClass(quiet=...)] and [checker.run()] both return,
    the exception otherwise; [main] has no handler around them. *)
Section Main.
Variable importer : string → string → option exn.
Variable checker : string → string → bool → option exn.

Definition run_checker (entry : string * string) (quiet : bool) : Proc unit :=
  ([Run entry.1 entry.2 quiet],
   match checker entry.1 entry.2 quiet with
   | None => Done tt
   | Some e => Uncaught e
   end).

Definition get_checker_class (site_key : string) : Proc (string * string) :=
  match lookup_checker site_key CHECKERS with
  | None =>
      print ("Error: Unknown site '" +:+ site_key +:+ "'");;
      print ("Available sites: " +:+ join ", " (CHECKERS.*1));;
      sys_exit 1
  | Some (module_name, class_name) =>
      match importer module_name class_name with
      | None => mret (module_name, class_name)
      | Some e =>
          print ("Error loading checker for '" +:+ site_key +:+ "': "
                 +:+ exn_text e);;
          sys_exit 1
      end
  end.

(** The [for key, (module, cls) in CHECKERS.items()] loop of
    [list_sites]. *)
Fixpoint list_sites_loop (registry : list (string * (string * string)))
    : Proc unit :=
  match registry with
  | [] => mret tt
  | (key, _) :: rest =>
      let default_marker :=
        if decide (key ∈ DEFAULT_SITES) then " (default)" else "" in
      print ("  " +:+ key +:+ default_marker);;
      list_sites_loop rest
  end.

Definition list_sites : Proc unit :=
  print "Available sites:";;
  list_sites_loop CHECKERS.

(** The sites that [main] goes through. *)
Definition sites_to_run (args : Args) : list string :=
  if arg_all args then CHECKERS.*1
  else match arg_sites args with
       | _ :: _ => arg_sites args
       | [] => DEFAULT_SITES
       end.

(** The [for site_key in sites_to_run] loop of [main]. *)
Fixpoint run_sites (quiet : bool) (sites : list string) : Proc unit :=
  match sites with
  | [] => mret tt
  | site_key :: rest =>
      (if quiet then mret tt
       else print (nl +:+ str_repeat "=" 50);;
            print ("Checking: " +:+ site_key);;
            print (str_repeat "=" 50));;
      checker_class ← get_checker_class site_key;
      run_checker checker_class quiet;;
      run_sites quiet rest
  end.

Definition main (args : Args) : Proc unit :=
  if arg_list args then list_sites
  else run_sites (arg_quiet args) (sites_to_run args).
End Main.

End RunChecker.

(** * Observations

    What the statements below say about a cycle: the state it starts from,
    the lists it computes on the way and the world it leaves.  Nothing here
    is run by the checker. *)

(** The seen set that a cycle starting in [w] works with. *)
Definition seen_of (w : World) : gset string :=
  match seen_products_file w with
  | Stored l => list_to_set l
  | _ => ∅
  end.

(** The value that [_load_signed_seen] hands to a cycle starting in
    [w]. *)
Definition loaded_signed_seen (w : World) : value :=
  match signed_seen_file w with
  | Stored v => v
  | _ => VDict ∅
  end.

(** The entries of a value that is a mapping; another value has none. *)
Definition entries_of (v : value) : gmap string value :=
  match v with
  | VDict entries => entries
  | _ => ∅
  end.

(** The signed-seen mapping that a cycle starting in [w] works with. *)
Definition signed_seen_of (w : World) : gmap string value :=
  entries_of (loaded_signed_seen w).

(** [w'] differs from [w] in the log file at most. *)
Definition same_store (w w' : World) : Prop :=
  seen_products_file w' = seen_products_file w
  ∧ signed_seen_file w' = signed_seen_file w
  ∧ lock_file w' = lock_file w
  ∧ smtp_attempts w' = smtp_attempts w.

(** Whether [send_email] returns [True] for the message. *)
Definition delivered (server : Email → smtp_reply) (msg : Email) : bool :=
  match server msg with
  | Accepted => true
  | Refused _ | SentThenRaised _ => false
  end.

(** Whether the message reached its recipients: [sendmail] returned. *)
Definition went_out (server : Email → smtp_reply) (msg : Email) : bool :=
  match server msg with
  | Accepted | SentThenRaised _ => true
  | Refused _ => false
  end.

(** Whether a character occurs in a string. *)
Fixpoint occurs (c : Ascii.ascii) (s : string) : bool :=
  match s with
  | EmptyString => false
  | String c' rest => Ascii.eqb c' c || occurs c rest
  end.

Section Observations.
Context `{Site}.

(** A fetch of the base class fails when the request raises, the status
    is not 200 or the parser raises. *)
Definition fetch_failed (net : network) : bool :=
  match net search_url with
  | RequestFailed _ => true
  | Response status_code text =>
      if decide (status_code = 200%Z)
      then match (parse_products net text).2 with
           | Return _ => false
           | Raise _ => true
           end
      else true
  end.

(** The list that [fetch_products] hands to [run]. *)
Definition fetched (net : network) : list Product :=
  match net search_url with
  | RequestFailed _ => []
  | Response status_code text =>
      if decide (status_code = 200%Z)
      then match (parse_products net text).2 with
           | Return ps => ps
           | Raise _ => []
           end
      else []
  end.

(** The lines that the parser logs in a fetch: none when it is not
    called. *)
Definition parser_lines (net : network) : list string :=
  match net search_url with
  | RequestFailed _ => []
  | Response status_code text =>
      if decide (status_code = 200%Z)
      then (parse_products net text).1
      else []
  end.

(** The listings that the cycle of [env] started in [w] classifies as
    new, and the keys of everything it fetched. *)
Definition new_in_cycle (env : Env) (w : World) : list Product :=
  (scan (seen_of w) (fetched (http env))).1.

Definition keys_in_cycle (env : Env) : gset string :=
  (scan ∅ (fetched (http env))).2.

(** The message of the cycle about its new listings. *)
Definition new_items_email (env : Env) (w : World) : Email :=
  {| subject := get_email_subject (new_in_cycle env w) (timestamp env);
     body := build_email_body (new_in_cycle env w) |}.

(** The world after the cycle, and after several cycles in a row. *)
Definition after (env : Env) (w : World) : World := (run env w).2.

Definition cycles (envs : list Env) (w : World) : World :=
  fold_left (λ w env, after env w) envs w.

End Observations.

(** The claim that the value returned by [fetch_products] lets its caller
    tell a failed fetch from a fetch without listings: some reader of that
    value gives, on every site, reply and world, whether the fetch
    failed. *)
Definition failure_is_distinguishable : Prop :=
  ∃ reader : outcome (list Product) → bool,
    ∀ (site : Site) (net : network) (w : World),
      reader (fetch_products net w).1 = fetch_failed net.

Module TaylorSwiftObservations.
Import TaylorSwift.

(** The list that the Shopify [fetch_products] hands to [run]: the pages
    up to the first one that stops the loop. *)
Fixpoint pages_products (replies : list page_reply) : list Product :=
  match replies with
  | [] => []
  | PageError _ :: _ => []
  | Page status_code converted stopped :: rest =>
      if decide (status_code = 200%Z) then
        match converted, stopped with
        | [], None => []
        | _, Some _ => converted
        | _, None => converted ++ pages_products rest
        end
      else []
  end.

(** What the loop of the cycle of [env] started in [w] comes to. *)
Definition classified (env : Env) (w : World) : outcome Categories :=
  categorize (seen_of w) (loaded_signed_seen w) (now env)
    (pages_products (shopify env)).

(** The categories of the cycle of [env] started in [w]: the lists that
    its loop hands on, all empty when an exception ends the loop. *)
Definition categories (env : Env) (w : World) : Categories :=
  match classified env w with
  | Return c => c
  | Raise _ =>
      {| new_products := []; signed_in_stock := []; all_current_urls := ∅ |}
  end.

(** Whether the test of the loop takes a listing for the signed alert:
    signed, available and past the cooldown, nothing raised. *)
Definition due (signed_seen : value) (now : float) (p : Product) : bool :=
  is_signed p && is_available p
  && match past_cooldown signed_seen now (clean_url p) with
     | Return b => b
     | Raise _ => false
     end.

(** The exception that ends the loop over [products], if one does: the
    one of the first signed and available listing whose test raises. *)
Fixpoint loop_error (signed_seen : value) (now : float)
    (products : list Product) : option exn :=
  match products with
  | [] => None
  | p :: rest =>
      match past_cooldown signed_seen now (clean_url p) with
      | Raise e =>
          if is_signed p && is_available p then Some e
          else loop_error signed_seen now rest
      | Return _ => loop_error signed_seen now rest
      end
  end.

(** The entries after [mark_alerted] on a mapping. *)
Definition mark_entries (now : float) (signed_in_stock : list Product)
    (entries : gmap string value) : gmap string value :=
  fold_left (λ d p, <[ clean_url p := VFloat now ]> d) signed_in_stock entries.

(** A mapping as the checker writes it: every entry is a float. *)
Definition float_mapping (v : value) : Prop :=
  ∃ times : gmap string float, v = VDict (VFloat <$> times).

(** The claim that the cooldown is counted exactly.  Times are given by
    their exact values in units of [2^-1074]; over a mapping of such
    times, a listing is in the signed partition exactly when it is
    signed, available and the exact difference between [now] and its last
    alert, 0 for a key that the mapping lacks, is at least
    [SIGNED_COOLDOWN_SECONDS]. *)
Definition cooldown_is_exact : Prop :=
  ∀ (seen : gset string) (times : gmap string Z) (now : Z)
    (products : list Product) (p : Product),
    ∃ c,
      categorize seen (VDict ((λ T, VFloat (Finite T)) <$> times))
        (Finite now) products = Return c
      ∧ (p ∈ signed_in_stock c
         ↔ p ∈ products ∧ is_signed p = true ∧ is_available p = true
           ∧ (SIGNED_COOLDOWN_SECONDS * 2 ^ 1074
              ≤ now - default 0 (times !! clean_url p))%Z).

Definition signed_email (env : Env) (w : World) : Email :=
  let signed := signed_in_stock (categories env w) in
  {| subject := "🚨 SIGNED Taylor Swift Items IN STOCK! - "
                +:+ pretty (length signed) +:+ " item(s) - "
                +:+ timestamp env;
     body := _build_signed_email signed |}.

(** The listings of the standard new-items message of the cycle. *)
Definition new_items_sent (env : Env) (w : World) : list Product :=
  new_non_signed (new_products (categories env w))
    (signed_in_stock (categories env w)).

Definition new_email (env : Env) (w : World) : Email :=
  {| subject := get_email_subject (new_items_sent env w) (timestamp env);
     body := build_email_body (new_items_sent env w) |}.

Definition after (env : Env) (w : World) : World :=
  (TaylorSwift.run env w).2.


(** The entry that a message about [listings] leaves in the record of
    the SMTP attempts: none when there is nothing to report. *)
Definition attempt (server : Email → smtp_reply) (listings : list Product)
    (msg : Email) : list (Email * bool) :=
  match listings with
  | [] => []
  | _ :: _ => [(msg, delivered server msg)]
  end.
End TaylorSwiftObservations.

(** ** Sample data *)

(** The Jonas Brothers shop, over whatever its page parses to.  Its
    parser logs when it fails on a card and is not quiet; this one finds
    every card in order. *)
Definition JonasBrothers (parse : string → outcome (list Product)) : Site := {|
  site_name := "Jonas Brothers";
  search_url :=
    "https://shop.jonasbrothers.com/search?type=product&q=signed*&filter.v.availability=1";
  base_url := "https://shop.jonasbrothers.com";
  parse_products := λ _ text, ([], parse text);
  get_email_subject := λ new_products timestamp,
    "🎸 Jonas Brothers SIGNED Items Alert! - "
    +:+ pretty (length new_products) +:+ " item(s) - " +:+ timestamp;
  get_email_intro := "NEW SIGNED JONAS BROTHERS ITEMS ARE AVAILABLE! 🎸" +:+ nl
|}.

Definition listing (title url : string) (is_signed is_available : bool)
    : Product :=
  {| title := title; price := "$40.00"; url := url; image_url := "";
     is_signed := is_signed; is_available := is_available |}.

Definition tee : Product :=
  listing "Signed Tee" "https://shop.jonasbrothers.com/products/tee?variant=1"
    false true.

Definition tee_again : Product :=
  listing "Signed Tee" "https://shop.jonasbrothers.com/products/tee?variant=2"
    false true.

Definition poster : Product :=
  listing "Signed Poster" "https://shop.jonasbrothers.com/products/poster"
    false true.

Definition cardigan : Product :=
  listing "Cardigan" "https://store.taylorswift.com/products/cardigan"
    false true.

Definition signed_cd : Product :=
  listing "Signed CD" "https://store.taylorswift.com/products/signed-cd"
    true true.

(** A first run: no file yet, nothing logged or sent. *)
Definition fresh : World :=
  {| seen_products_file := Absent; signed_seen_file := Absent;
     lock_file := None; log_file := []; smtp_attempts := [] |}.

Definition smtp_up : Email → smtp_reply := λ _, Accepted.
Definition smtp_down : Email → smtp_reply :=
  λ _, Refused (Exception "Connection refused").
Definition smtp_bad_quit : Email → smtp_reply :=
  λ _, SentThenRaised (Exception "(421, b'Service not available')").

Definition env_of (reply : http_reply) (pages : list page_reply)
    (time : float) (server : Email → smtp_reply) : Env :=
  {| timestamp := "2024-05-01 12:00:00"; now := time; http := λ _, reply;
     shopify := pages; smtp := server |}.

(** The shop with a tee and a poster on its page, and with an empty
    page. *)
Definition jonas : Site := JonasBrothers (λ _, Return [tee; poster]).
Definition jonas_empty : Site := JonasBrothers (λ _, Return []).

Definition noon : float := whole 1714564800.
Definition a_minute_later : float := whole 1714564860.
Definition an_hour_later : float := whole 1714568400.

(** A signed-seen file that holds the JSON text [[]]. *)
Definition listed : World :=
  {| seen_products_file := Absent; signed_seen_file := Stored (VList []);
     lock_file := None; log_file := []; smtp_attempts := [] |}.

Definition page_ok : http_reply := Response 200 "<html>".
Definition page_503 : http_reply := Response 503 "Service Unavailable".
Definition timed_out : http_reply := RequestFailed (Exception "Read timed out").

(** ** Observations on the floats *)

(** A float of [SpecFloat], the specification of IEEE 754 in the Standard
    Library, as a float of this file. *)
Definition of_spec (x : SpecFloat.spec_float) : float :=
  match x with
  | SpecFloat.S754_zero negative => if negative then NegZero else Finite 0
  | SpecFloat.S754_infinity negative => Infinity negative
  | SpecFloat.S754_nan => NaN
  | SpecFloat.S754_finite negative m e =>
      Finite ((if negative then -1 else 1) * Z.pos m * 2 ^ (e + 1074))
  end.

(** Whether two floats are the same datum. *)
Definition same_float (x y : float) : bool :=
  match x, y with
  | Finite n, Finite m => (n =? m)%Z
  | NegZero, NegZero | NaN, NaN => true
  | Infinity a, Infinity b => Bool.eqb a b
  | _, _ => false
  end.

(** The binary64 float of [SpecFloat] nearest to [m * 2^e]. *)
Definition binary64 (m e : Z) : SpecFloat.spec_float :=
  SpecFloat.binary_normalize 53 1024 m e false.

(** Pairs of floats to subtract: clock readings, differences that round
    up to the cooldown, operands far apart, subnormal numbers, the
    largest floats, zeros of both signs, infinities and NaN. *)
Definition subtraction_samples
    : list (SpecFloat.spec_float * SpecFloat.spec_float) :=
  [ (binary64 7200 0, binary64 1 (-60));
    (binary64 0x15157705285ded (-39), binary64 0x1c15dc14a177b5 (-41));
    (binary64 0x198c8bb007df3b (-22), binary64 0x198c84a807dd98 (-22));
    (binary64 1714564800 0, binary64 0 0);
    (binary64 1 0, binary64 3 (-1));
    (binary64 1 100, binary64 1 0);
    (binary64 (2 ^ 53 + 1) 1, binary64 1 (-1));
    (binary64 (2 ^ 53) 0, binary64 (-1) 0);
    (binary64 (2 ^ 53 + 2) 0, binary64 (-1) 0);
    (binary64 1 (-1074), binary64 2024 (-1074));
    (binary64 (2 ^ 52) (-1074), binary64 (2 ^ 52 - 1) (-1074));
    (binary64 (2 ^ 53 - 1) 971, binary64 (-1) 970);
    (binary64 (2 ^ 53 - 1) 971, binary64 (-1) 969);
    (binary64 (2 ^ 53 - 1) 971, binary64 (-(2 ^ 53 - 1)) 971);
    (binary64 (-(2 ^ 53 - 1)) 971, binary64 1 970);
    (binary64 5 0, binary64 5 0);
    (SpecFloat.S754_zero false, SpecFloat.S754_zero false);
    (SpecFloat.S754_zero true, SpecFloat.S754_zero false);
    (SpecFloat.S754_zero false, SpecFloat.S754_zero true);
    (SpecFloat.S754_zero true, SpecFloat.S754_zero true);
    (SpecFloat.S754_zero true, binary64 5 0);
    (binary64 3 0, SpecFloat.S754_zero true);
    (SpecFloat.S754_infinity false, SpecFloat.S754_infinity false);
    (SpecFloat.S754_infinity false, SpecFloat.S754_infinity true);
    (SpecFloat.S754_infinity true, binary64 1 0);
    (binary64 1 0, SpecFloat.S754_infinity false);
    (SpecFloat.S754_nan, binary64 1 0);
    (binary64 1 0, SpecFloat.S754_nan) ].

(** A clock reading from [2^30] seconds, in January 2004, up to [2^31]
    seconds, in January 2038: the floats there are the multiples of
    [2^-22]. *)
Definition this_era (x : float) : Prop :=
  ∃ k : Z, x = Finite (k * 2 ^ 1052) ∧ (2 ^ 52 ≤ k < 2 ^ 53)%Z.

(** ** Observations on the rest of the checker *)

(** [str.lower] on text in ASCII. *)
Definition ascii_lower_char (c : Ascii.ascii) : Ascii.ascii :=
  let n := Ascii.nat_of_ascii c in
  if (65 <=? n)%nat && (n <=? 90)%nat
  then Ascii.ascii_of_nat (n + 32)
  else c.

Fixpoint ascii_lower (s : string) : string :=
  match s with
  | EmptyString => EmptyString
  | String c rest => String (ascii_lower_char c) (ascii_lower rest)
  end.

Module TaylorSwiftPages.

(** A page that lets the loop of [fetch_products] go on: status 200, some
    products, all of them converted. *)
Definition full_page (r : page_reply) : bool :=
  match r with
  | Page status_code (_ :: _) None => bool_decide (status_code = 200%Z)
  | _ => false
  end.

(** The listings that a page adds to [all_products]: none unless its
    status is 200. *)
Definition page_listings (r : page_reply) : list Product :=
  match r with
  | Page status_code converted _ =>
      if decide (status_code = 200%Z) then converted else []
  | PageError _ => []
  end.

End TaylorSwiftPages.

Module RunCheckerObservations.
Import RunChecker.

(** Whether [get_checker_class] gives a class for the key. *)
Definition loads (importer : string → string → option exn) (key : string)
    : bool :=
  match lookup_checker key CHECKERS with
  | Some (module_name, class_name) =>
      match importer module_name class_name with
      | None => true
      | Some _ => false
      end
  | None => false
  end.

(** The longest front part of a list whose members all pass a test. *)
Fixpoint front {A} (test : A → bool) (l : list A) : list A :=
  match l with
  | [] => []
  | x :: rest => if test x then x :: front test rest else []
  end.

(** The checkers that a run of the script started, in order, as their
    entries of the registry. *)
Definition ran (events : list event) : list (string * string) :=
  omap (λ e, match e with
             | Run module_name class_name _ => Some (module_name, class_name)
             | Print _ => None
             end) events.

(** The entry of a key that is in the registry. *)
Definition entry_of (key : string) : string * string :=
  default ("", "") (lookup_checker key CHECKERS).

(** Whether the checker of the key returns. *)
Definition returns (checker : string → string → bool → option exn)
    (quiet : bool) (key : string) : bool :=
  match checker (entry_of key).1 (entry_of key).2 quiet with
  | None => true
  | Some _ => false
  end.

(** A site that [main] gets through: its class loads and its checker
    returns. *)
Definition passes (importer : string → string → option exn)
    (checker : string → string → bool → option exn) (quiet : bool)
    (key : string) : bool :=
  loads importer key && returns checker quiet key.

(** The import machinery over the classes that the files under [sites/]
    define. *)
Definition repository_importer (module_name class_name : string)
    : option exn :=
  if bool_decide ((module_name, class_name) ∈
       [ ("sites.jonas_brothers", "JonasBrothersChecker");
         ("sites.banquet_records", "BanquetRecordsChecker");
         ("sites.banquet_records", "NoahKahanChecker");
         ("sites.noah_kahan_store", "NoahKahanStoreChecker");
         ("sites.benson_boone", "BensonBooneChecker");
         ("sites.gracie_abrams", "GracieAbramsChecker");
         ("sites.taylor_swift", "TaylorSwiftChecker") ])
  then None
  else Some (Exception ("No module named '" +:+ module_name +:+ "'")).

(** Checkers that return, but for the one of the Taylor Swift store. *)
Definition taylor_raises (module_name class_name : string) (quiet : bool)
    : option exn :=
  if bool_decide (class_name = "TaylorSwiftChecker")
  then Some (Exception "'list' object has no attribute 'get'")
  else None.

End RunCheckerObservations.

(** * Properties *)

(** ** Rounding *)

Section Rounding.
Local Open Scope Z_scope.

Lemma round_to_mono k a b :
  0 ≤ k → 0 ≤ a ≤ b → round_to k a ≤ round_to k b.
Proof.
  intros Hk [Ha Hab]. unfold round_to.
  assert (0 < 2 ^ k) as Hu by (apply Z.pow_pos_nonneg; lia).
  pose proof (Z.div_mod a (2 ^ k) ltac:(lia)) as Ea.
  pose proof (Z.div_mod b (2 ^ k) ltac:(lia)) as Eb.
  pose proof (Z.mod_pos_bound a (2 ^ k) Hu) as Ba.
  pose proof (Z.mod_pos_bound b (2 ^ k) Hu) as Bb.
  set (u := 2 ^ k) in *. set (qa := a / u) in *. set (qb := b / u) in *.
  set (ra := a mod u) in *. set (rb := b mod u) in *.
  assert (qa ≤ qb) as Hq by nia.
  destruct (decide (qa = qb)) as [E|Hne].
  - rewrite E in *. assert (ra ≤ rb) by nia.
    destruct (u <? 2 * ra) eqn:H1; simpl.
    + apply Z.ltb_lt in H1.
      rewrite (proj2 (Z.ltb_lt u (2 * rb))) by lia. simpl. lia.
    + destruct (2 * ra =? u) eqn:H2; simpl.
      * apply Z.eqb_eq in H2. destruct (Z.odd qb); simpl.
        -- destruct (u <? 2 * rb) eqn:H3; simpl; [lia|].
           apply Z.ltb_ge in H3.
           rewrite (proj2 (Z.eqb_eq (2 * rb) u)) by lia. simpl. lia.
        -- destruct ((u <? 2 * rb) || (2 * rb =? u) && false); nia.
      * destruct ((u <? 2 * rb) || (2 * rb =? u) && Z.odd qb); nia.
  - assert (qa + 1 ≤ qb) by lia.
    destruct ((u <? 2 * ra) || (2 * ra =? u) && Z.odd qa),
      ((u <? 2 * rb) || (2 * rb =? u) && Z.odd qb); nia.
Qed.

Lemma round_to_multiple k c : 0 ≤ k → round_to k (c * 2 ^ k) = c * 2 ^ k.
Proof.
  intros Hk. unfold round_to.
  assert (0 < 2 ^ k) as Hu by (apply Z.pow_pos_nonneg; lia).
  rewrite Z_mod_mult, Z_div_mult by lia.
  rewrite (proj2 (Z.ltb_ge _ _)) by lia.
  by rewrite (proj2 (Z.eqb_neq _ _)) by lia.
Qed.

Lemma ulp_exponent_nonneg a : 0 ≤ ulp_exponent a.
Proof. unfold ulp_exponent. lia. Qed.

Lemma ulp_exponent_mono a b : a ≤ b → ulp_exponent a ≤ ulp_exponent b.
Proof.
  intros Hab. unfold ulp_exponent. pose proof (Z.log2_le_mono a b Hab). lia.
Qed.

Lemma ulp_exponent_le_log2 a : ulp_exponent a ≤ Z.log2 a.
Proof. unfold ulp_exponent. pose proof (Z.log2_nonneg a). lia. Qed.

Lemma pow2_multiple (k l : Z) : 0 ≤ k ≤ l → 2 ^ l = 2 ^ (l - k) * 2 ^ k.
Proof. intros ?. rewrite <- Z.pow_add_r by lia. f_equal. lia. Qed.

(** Rounding keeps a positive number in its binade, the ends included. *)
Lemma round_half_even_binade a :
  0 < a → 2 ^ Z.log2 a ≤ round_half_even a ≤ 2 ^ (Z.log2 a + 1).
Proof.
  intros Ha. unfold round_half_even.
  pose proof (ulp_exponent_nonneg a) as Hk.
  pose proof (ulp_exponent_le_log2 a) as Hl.
  destruct (Z.log2_spec a Ha) as [Hlo Hhi].
  replace (Z.succ (Z.log2 a)) with (Z.log2 a + 1) in Hhi by lia.
  assert (∀ l, ulp_exponent a ≤ l →
            round_to (ulp_exponent a) (2 ^ l) = 2 ^ l) as Hfix.
  { intros l Hle. rewrite (pow2_multiple (ulp_exponent a) l) by lia.
    by apply round_to_multiple. }
  split.
  - rewrite <- (Hfix (Z.log2 a)) by lia. apply round_to_mono; lia.
  - rewrite <- (Hfix (Z.log2 a + 1)) by lia. apply round_to_mono; lia.
Qed.

Lemma round_half_even_mono a b :
  0 ≤ a ≤ b → round_half_even a ≤ round_half_even b.
Proof.
  intros [Ha Hab].
  destruct (decide (a = 0)) as [->|Hpos].
  { destruct (decide (b = 0)) as [->|]; [done|].
    etrans; [|apply round_half_even_binade; lia].
    change (round_half_even 0) with 0. apply Z.pow_nonneg. lia. }
  pose proof (ulp_exponent_mono a b Hab) as Hk.
  destruct (decide (ulp_exponent a = ulp_exponent b)) as [E|Hne].
  { unfold round_half_even. rewrite E.
    apply round_to_mono; [apply ulp_exponent_nonneg|lia]. }
  assert (Z.log2 a + 1 ≤ Z.log2 b) as Hlog.
  { unfold ulp_exponent in *. pose proof (Z.log2_le_mono a b Hab). lia. }
  etrans; [apply round_half_even_binade; lia|].
  etrans; [|apply round_half_even_binade; lia].
  apply Z.pow_le_mono_r; lia.
Qed.

Lemma round_half_even_nonneg a : 0 ≤ a → 0 ≤ round_half_even a.
Proof.
  intros Ha. change 0 with (round_half_even 0) at 1.
  apply round_half_even_mono. lia.
Qed.

(** Rounding is monotone. *)
Lemma round_mono n n' : n ≤ n' → float_le (round n) (round n') = true.
Proof.
  intros Hn. unfold round.
  pose proof (round_half_even_nonneg (Z.abs n) (Z.abs_nonneg n)) as H0.
  pose proof (round_half_even_nonneg (Z.abs n') (Z.abs_nonneg n')) as H0'.
  destruct (Z.leb_spec (2 ^ 2098) (round_half_even (Z.abs n))) as [Ho|Ho],
    (Z.leb_spec (2 ^ 2098) (round_half_even (Z.abs n'))) as [Ho'|Ho'];
    cbn [float_le].
  - destruct (Z.ltb_spec n 0), (Z.ltb_spec n' 0); try done. lia.
  - destruct (Z.ltb_spec n 0); [done|].
    assert (round_half_even (Z.abs n) ≤ round_half_even (Z.abs n'))
      by (apply round_half_even_mono; lia).
    lia.
  - destruct (Z.ltb_spec n' 0); [|done].
    assert (round_half_even (Z.abs n') ≤ round_half_even (Z.abs n))
      by (apply round_half_even_mono; lia).
    lia.
  - apply Z.leb_le.
    destruct (Z.le_gt_cases 0 n) as [Hsn|Hsn],
      (Z.le_gt_cases 0 n') as [Hsn'|Hsn'].
    + assert (round_half_even (Z.abs n) ≤ round_half_even (Z.abs n'))
        by (apply round_half_even_mono; lia).
      nia.
    + lia.
    + nia.
    + assert (round_half_even (Z.abs n') ≤ round_half_even (Z.abs n))
        by (apply round_half_even_mono; lia).
      nia.
Qed.

Lemma float_ge_int_mono x y z :
  float_le x y = true → float_ge_int x z = true → float_ge_int y z = true.
Proof.
  destruct x as [n| |[]|], y as [m| |[]|]; simpl; try done;
    rewrite ?Z.leb_le; lia.
Qed.

(** A later clock reading keeps a difference that has reached a positive
    bound at or over it. *)
Lemma float_sub_ge_mono x x' y z :
  0 < z → float_le x x' = true →
  float_ge_int (float_sub x y) z = true →
  float_ge_int (float_sub x' y) z = true.
Proof.
  intros Hz.
  assert (∀ n n', n ≤ n' → float_ge_int (round n) z = true →
                  float_ge_int (round n') z = true) as Hround.
  { intros n n' Hn. apply float_ge_int_mono. by apply round_mono. }
  assert (∀ n, n ≤ 0 → float_ge_int (round n) z = true → False) as Hnever.
  { intros n Hn Hge.
    assert (float_ge_int (round 0) z = true) as Hzero
      by (revert Hge; by apply Hround).
    revert Hzero. change (round 0) with (Finite 0). cbn [float_ge_int].
    rewrite Z.leb_le. assert (0 < 2 ^ 1074) by (by apply Z.pow_pos_nonneg).
    nia. }
  destruct x as [n| |[]|], x' as [n'| |[]|], y as [m| |[]|];
    cbn [float_le float_sub float_ge_int Bool.eqb negb]; try done;
    rewrite ?Z.leb_le; intros Hle; try lia.
  - apply Hround. lia.
  - by apply Hround.
  - destruct (Z.eqb_spec m 0) as [->|Hm]; [|apply Hround; lia].
    rewrite Z.sub_0_r. intros Hge. by destruct (Hnever n).
  - intros Hge. by destruct (Hnever n).
  - destruct (Z.eqb_spec m 0) as [->|Hm]; [|apply Hround; lia].
    cbn [float_ge_int]. rewrite Z.leb_le. lia.
Qed.

(** A number with a significand of 53 bits is a float and rounds to
    itself. *)
Lemma round_exact m k :
  0 ≤ k → Z.abs m < 2 ^ 53 → Z.abs m * 2 ^ k < 2 ^ 2098 →
  round (m * 2 ^ k) = Finite (m * 2 ^ k).
Proof.
  intros Hk Hm Hfinite.
  assert (0 < 2 ^ k) as Hu by (apply Z.pow_pos_nonneg; lia).
  destruct (decide (m = 0)) as [->|Hne]; [done|].
  assert (Z.abs (m * 2 ^ k) = Z.abs m * 2 ^ k) as Habs
    by (rewrite Z.abs_mul; f_equal; lia).
  assert (round_half_even (Z.abs m * 2 ^ k) = Z.abs m * 2 ^ k) as Hsame.
  { unfold round_half_even.
    set (e := ulp_exponent (Z.abs m * 2 ^ k)).
    assert (0 ≤ e ≤ k) as He.
    { subst e. unfold ulp_exponent.
      rewrite Z.log2_mul_pow2 by lia.
      assert (Z.log2 (Z.abs m) < 53) by (apply Z.log2_lt_pow2; lia).
      lia. }
    rewrite (pow2_multiple e k) by lia. rewrite Z.mul_assoc.
    apply round_to_multiple. lia. }
  unfold round. rewrite Habs, Hsame.
  rewrite (proj2 (Z.leb_gt _ _)) by lia. f_equal.
  rewrite <- Habs, Z.mul_comm. apply Z.abs_sgn.
Qed.

(** On the samples the subtraction of this file gives what the
    subtraction of [SpecFloat] gives for binary64. *)
Lemma float_sub_as_in_the_library :
  forallb (λ pair, same_float (float_sub (of_spec pair.1) (of_spec pair.2))
                     (of_spec (SpecFloat.SFsub 53 1024 pair.1 pair.2)))
    subtraction_samples
  = true.
Proof. by vm_compute. Qed.
End Rounding.

(** ** The monad, the loaders and the fetch boundary *)

(** Unfolds the operations of the monad, so that a computation applied to
    a world reduces to the pair it returns. *)
Ltac munfold :=
  unfold path_exists, open_and_load, try_except, gets, raise, lift, log,
    modify, mbind, M_bind, mret, M_ret;
  cbv beta.

Lemma bind_run {A B} (m : M A) (k : A → M B) w a w' :
  m w = (Return a, w') → (m ≫= k) w = k a w'.
Proof. unfold mbind, M_bind. by intros ->. Qed.

Lemma bind_lift_return {A B} (a : A) (k : A → M B) w :
  (lift (Return a) ≫= k) w = k a w.
Proof. done. Qed.

Lemma bind_lift_raise {A B} e (k : A → M B) w :
  (lift (Raise e) ≫= k) w = (Raise e, w).
Proof. done. Qed.

Lemma same_store_refl w : same_store w w.
Proof. by repeat split. Qed.

Lemma same_store_trans w1 w2 w3 :
  same_store w1 w2 → same_store w2 w3 → same_store w1 w3.
Proof.
  intros (?&?&?&?) (?&?&?&?). repeat split; congruence.
Qed.

Lemma same_store_log l w : same_store w (add_log_line l w).
Proof. by repeat split. Qed.

Lemma load_seen_products_run w :
  load_seen_products w = (Return (seen_of w), w).
Proof.
  unfold load_seen_products, seen_of. munfold.
  destruct (seen_products_file w) eqn:E; simpl; by rewrite ?E.
Qed.

Lemma load_signed_seen_run w :
  TaylorSwift._load_signed_seen w = (Return (loaded_signed_seen w), w).
Proof.
  unfold TaylorSwift._load_signed_seen, loaded_signed_seen. munfold.
  destruct (signed_seen_file w) eqn:E; simpl; by rewrite ?E.
Qed.

Lemma fetch_products_run `{Site} net w :
  ∃ w', fetch_products net w = (Return (fetched net), w')
        ∧ same_store w w'.
Proof.
  unfold fetch_products, fetched. munfold.
  destruct (net search_url) as [e|code text]; simpl.
  - eexists; split; [done|apply same_store_log].
  - destruct (decide (code ≠ 200%Z)), (decide (code = 200%Z)); try done; simpl.
    + eexists; split; [done|apply same_store_log].
    + destruct (parse_products net text) as [lines [ps|err]]; simpl.
      * eexists; split; [done|by repeat split].
      * eexists; split; [done|by repeat split].
Qed.

Lemma fetch_failed_fetched `{Site} net :
  fetch_failed net = true → fetched net = [].
Proof.
  unfold fetch_failed, fetched. destruct (net search_url) as [e|code text]; [done|].
  destruct (decide (code = 200%Z)); [|done].
  by destruct (parse_products net text).2.
Qed.

Lemma send_email_run server subject body w :
  let msg := {| subject := subject; body := body |} in
  ∃ w', send_email server subject body w = (Return (delivered server msg), w')
        ∧ seen_products_file w' = seen_products_file w
        ∧ signed_seen_file w' = signed_seen_file w
        ∧ lock_file w' = lock_file w
        ∧ smtp_attempts w'
          = smtp_attempts w ++ [(msg, delivered server msg)].
Proof.
  intros msg. unfold send_email, delivered. munfold. fold msg.
  destruct (server msg); simpl; eexists; (split; [reflexivity|]); by simpl.
Qed.

(** ** The classification loop of [ProductChecker.run] *)

Lemma scan_fold seen products acc_new acc_urls :
  fold_left (scan_step seen) products (acc_new, acc_urls)
  = (acc_new ++ filter (λ p, clean_url p ∉ seen) products,
     acc_urls ∪ list_to_set (clean_url <$> products)).
Proof.
  revert acc_new acc_urls.
  induction products as [|p products IH]; intros acc_new acc_urls; simpl.
  - rewrite app_nil_r. f_equal. set_solver.
  - rewrite filter_cons. destruct (decide (clean_url p ∉ seen)).
    + rewrite IH, <- app_assoc. f_equal. set_solver.
    + rewrite IH. f_equal. set_solver.
Qed.

Lemma scan_filter seen products :
  scan seen products
  = (filter (λ p, clean_url p ∉ seen) products,
     list_to_set (clean_url <$> products)).
Proof.
  unfold scan. rewrite scan_fold. simpl. f_equal. set_solver.
Qed.

Lemma scan_keys seen products : (scan seen products).2 = (scan ∅ products).2.
Proof. by rewrite !scan_filter. Qed.

(** ** One cycle of [ProductChecker.run] *)

Section BaseCycle.
Context `{Site}.

(** What a cycle does to the store, by the three ways it can go. *)
Lemma run_spec env w :
  (run env w).1 = Return tt
  ∧ signed_seen_file (after env w) = signed_seen_file w
  ∧ match fetched (http env), new_in_cycle env w with
    | [], _ =>
        seen_products_file (after env w) = seen_products_file w
        ∧ lock_file (after env w) = lock_file w
        ∧ smtp_attempts (after env w) = smtp_attempts w
    | _ :: _, [] =>
        seen_products_file (after env w) = Stored (elements (seen_of w))
        ∧ lock_file (after env w) = lock_file w
        ∧ smtp_attempts (after env w) = smtp_attempts w
    | _ :: _, _ :: _ =>
        let msg := new_items_email env w in
        smtp_attempts (after env w)
        = smtp_attempts w ++ [(msg, delivered (smtp env) msg)]
        ∧ if delivered (smtp env) msg
          then seen_products_file (after env w)
               = Stored (elements (seen_of w ∪ keys_in_cycle env))
          else seen_products_file (after env w) = seen_products_file w
               ∧ lock_file (after env w) = lock_file w
    end.
Proof.
  unfold after, new_items_email, new_in_cycle, keys_in_cycle, run.
  rewrite (bind_run _ _ _ _ _ (load_seen_products_run w)).
  destruct (fetch_products_run (http env) w) as (w1 & Hf & Hs1 & Hg1 & Hl1 & Ha1).
  rewrite (bind_run _ _ _ _ _ Hf).
  rewrite <- (scan_keys (seen_of w)).
  destruct (fetched (http env)) as [|p ps] eqn:Hps.
  { unfold log, modify; simpl. by rewrite Hs1, Hg1, Hl1, Ha1. }
  destruct (scan (seen_of w) (p :: ps)) as [new urls] eqn:Hscan.
  simpl fst; simpl snd. destruct new as [|q qs].
  { munfold. unfold save_seen_products, modify. simpl.
    by rewrite Hg1, Hl1, Ha1. }
  set (msg := {| subject := get_email_subject (q :: qs) (timestamp env);
                 body := build_email_body (q :: qs) |}).
  destruct (send_email_run (smtp env) (subject msg) (body msg) w1)
    as (w2 & Hsend & Hs2 & Hg2 & Hl2 & Ha2).
  change {| subject := subject msg; body := body msg |} with msg in *.
  rewrite (bind_run _ _ _ _ _ Hsend). cbv zeta.
  destruct (delivered (smtp env) msg); simpl.
  - munfold. unfold save_seen_products, modify. simpl.
    by rewrite Hg2, Hg1, Ha2, Ha1.
  - munfold. simpl. by rewrite Hs2, Hs1, Hg2, Hg1, Hl2, Hl1, Ha2, Ha1.
Qed.

(** The seen set after a cycle, in every case, holds the seen set it
    started from. *)
Lemma seen_of_after env w : seen_of w ⊆ seen_of (after env w).
Proof.
  destruct (run_spec env w) as (_ & _ & Hcase).
  unfold seen_of at 2.
  destruct (fetched (http env)) as [|p ps].
  { destruct Hcase as (-> & _). by unfold seen_of. }
  destruct (new_in_cycle env w) as [|q qs].
  { destruct Hcase as (-> & _). by rewrite list_to_set_elements_L. }
  cbv zeta in Hcase. destruct Hcase as (_ & Hcase).
  destruct (delivered (smtp env) (new_items_email env w)).
  - rewrite Hcase, list_to_set_elements_L. set_solver.
  - destruct Hcase as (-> & _). by unfold seen_of.
Qed.

Lemma seen_of_cycles envs w : seen_of w ⊆ seen_of (cycles envs w).
Proof.
  revert w. induction envs as [|env envs IH]; intros w; simpl; [done|].
  etrans; [apply (seen_of_after env)|apply IH].
Qed.
End BaseCycle.

(** ** Canonical keys *)

Lemma split_first_prefix c s :
  ∃ rest, s = split_first c s +:+ rest
          ∧ (rest = "" ∨ ∃ query, rest = String c query).
Proof.
  induction s as [|a s (rest & IH & Hrest)]; simpl.
  - exists "". by split; [|left].
  - destruct (Ascii.eqb a c) eqn:E.
    + apply Ascii.eqb_eq in E as ->. exists (String c s). split; [done|eauto].
    + exists rest. split; [exact (f_equal (String a) IH)|done].
Qed.

Lemma split_first_clean c s : occurs c (split_first c s) = false.
Proof.
  induction s as [|a s IH]; simpl; [done|].
  destruct (Ascii.eqb a c) eqn:E; simpl; [done|]. by rewrite E.
Qed.

Lemma split_first_strips c path query :
  occurs c path = false → split_first c (path +:+ String c query) = path.
Proof.
  induction path as [|a path IH]; simpl.
  - by rewrite Ascii.eqb_refl.
  - intros [E Hp]%orb_false_elim. rewrite E. f_equal. by apply IH.
Qed.

(** ** Claims about [ProductChecker] *)

(** C3. The loop of [ProductChecker.run] puts a listing in the new
    partition exactly when its key is absent from the seen set the cycle
    started with; the new partition is the fetched list with the seen
    listings left out, in fetch order; the current keys are exactly the
    keys of the fetched listings, as a set; and the key of a listing is its
    URL up to, and without, the first question mark. *)
Theorem change_detection (seen : gset string) (products : list Product) :
  (∀ p, p ∈ (scan seen products).1 ↔ p ∈ products ∧ clean_url p ∉ seen)
  ∧ (scan seen products).1 = filter (λ p, clean_url p ∉ seen) products
  ∧ (scan seen products).1 `sublist_of` products
  ∧ (∀ k, k ∈ (scan seen products).2 ↔ ∃ p, p ∈ products ∧ clean_url p = k)
  ∧ (∀ p, occurs "?" (clean_url p) = false
          ∧ ∃ rest, url p = clean_url p +:+ rest
                    ∧ (rest = "" ∨ ∃ query, rest = String "?" query)).
Proof.
  rewrite scan_filter. simpl. split; [|split; [|split; [|split]]].
  - intros p. rewrite list_elem_of_filter. tauto.
  - done.
  - apply sublist_filter.
  - intros k. rewrite elem_of_list_to_set, list_elem_of_fmap. naive_solver.
  - intros p. split; [apply split_first_clean|apply split_first_prefix].
Qed.

(** C10. Every fetched listing whose key is absent from the seen set is in
    the new partition, each occurrence of it: the listings of one key are
    the same, in number and order, in the new partition and in the fetched
    list. *)
Theorem duplicates_stay_in_new (seen : gset string) (products : list Product)
    (k : string) :
  k ∉ seen →
  filter (λ p, clean_url p = k) (scan seen products).1
  = filter (λ p, clean_url p = k) products.
Proof.
  intros Hk. rewrite scan_filter. simpl.
  induction products as [|p products IH]; [done|].
  rewrite !filter_cons.
  destruct (decide (clean_url p ∉ seen)) as [Hp|Hp].
  - rewrite filter_cons. destruct (decide (clean_url p = k)); by rewrite IH.
  - destruct (decide (clean_url p = k)) as [E|]; [by rewrite E in Hp|apply IH].
Qed.

(** Two variants of one product, both unseen: both are new, both are in
    the body of the message, and the current keys hold their one key. *)
Lemma duplicates_stay_in_new_witness :
  ("https://shop.jonasbrothers.com/products/tee" ∉ (∅ : gset string))
  ∧ (filter (λ p, clean_url p = "https://shop.jonasbrothers.com/products/tee")
       (scan ∅ [tee; tee_again; poster]).1
     = [tee; tee_again])
  ∧ size (scan ∅ [tee; tee_again]).2 = 1
  ∧ @build_email_body jonas (scan ∅ [tee; tee_again]).1
    = join_lines
        [ "NEW SIGNED JONAS BROTHERS ITEMS ARE AVAILABLE! 🎸" +:+ nl;
          "==================================================";
          "";
          "1. Signed Tee";
          "   Price: $40.00";
          "   Link: https://shop.jonasbrothers.com/products/tee?variant=1";
          "";
          "2. Signed Tee";
          "   Price: $40.00";
          "   Link: https://shop.jonasbrothers.com/products/tee?variant=2";
          "";
          "==================================================";
          nl +:+ "Search page: https://shop.jonasbrothers.com/search?type=product&q=signed*&filter.v.availability=1";
          nl +:+ "(You will only be notified about NEW items)" ].
Proof.
  split; [set_solver|]. split; [|split].
  - by rewrite (duplicates_stay_in_new ∅ [tee; tee_again; poster]
                  "https://shop.jonasbrothers.com/products/tee"
                  (not_elem_of_empty _)).
  - by vm_compute.
  - by vm_compute.
Defined.

Section BaseClaims.
Context `{Site}.

(** C8. A cycle of [ProductChecker.run] whose [fetch_products] returns
    the empty list, whatever made it empty, ends normally without
    touching the seen-set file, the signed-seen file or the lock file and
    without reaching the SMTP server. *)
Theorem empty_fetch_stops_cycle (env : Env) (w : World) :
  (fetch_products (http env) w).1 = Return [] →
  (run env w).1 = Return tt
  ∧ seen_products_file (after env w) = seen_products_file w
  ∧ smtp_attempts (after env w) = smtp_attempts w
  ∧ signed_seen_file (after env w) = signed_seen_file w
  ∧ lock_file (after env w) = lock_file w.
Proof.
  intros Hempty.
  destruct (fetch_products_run (http env) w) as (w1 & Hf & _).
  rewrite Hf in Hempty. simpl in Hempty. injection Hempty as Hempty.
  destruct (run_spec env w) as (Hret & Hsigned & Hcase).
  rewrite Hempty in Hcase. by destruct Hcase as (? & ? & ?).
Qed.

(** C2. When a cycle of [ProductChecker.run] has new listings and
    [send_email] returns [False] for the message about them, the
    seen-set file and the lock file are as they were; and a cycle that
    follows with the same fetch output has the same new listings and
    tries to send the message about them. *)
Theorem failed_send_keeps_store (env : Env) (w : World) :
  new_in_cycle env w ≠ [] →
  (send_email (smtp env) (subject (new_items_email env w))
     (body (new_items_email env w)) w).1 = Return false →
  seen_products_file (after env w) = seen_products_file w
  ∧ lock_file (after env w) = lock_file w
  ∧ ∀ env', fetched (http env') = fetched (http env) →
      new_in_cycle env' (after env w) = new_in_cycle env w
      ∧ smtp_attempts (after env' (after env w))
        = smtp_attempts (after env w)
          ++ [(new_items_email env' (after env w),
               delivered (smtp env') (new_items_email env' (after env w)))].
Proof.
  intros Hnew Hsend.
  assert (delivered (smtp env) (new_items_email env w) = false) as Hfail.
  { destruct (send_email_run (smtp env) (subject (new_items_email env w))
                (body (new_items_email env w)) w) as (w' & Hrun & _).
    rewrite Hrun in Hsend. simpl in Hsend. by injection Hsend. }
  assert (fetched (http env) ≠ []) as Hfetched.
  { intros E. apply Hnew. unfold new_in_cycle. by rewrite E. }
  destruct (run_spec env w) as (_ & _ & Hcase).
  assert (seen_products_file (after env w) = seen_products_file w
          ∧ lock_file (after env w) = lock_file w) as [Hkept Hlock].
  { remember (new_in_cycle env w) as new eqn:Enew.
    destruct (fetched (http env)) as [|p ps]; [done|].
    destruct new as [|q qs]; [done|].
    cbv zeta in Hcase. rewrite Hfail in Hcase.
    by destruct Hcase as (_ & ? & ?). }
  split; [done|]. split; [done|]. intros env' Hsame.
  assert (new_in_cycle env' (after env w) = new_in_cycle env w) as Hagain.
  { unfold new_in_cycle, seen_of. by rewrite Hkept, Hsame. }
  split; [done|].
  destruct (run_spec env' (after env w)) as (_ & _ & Hcase').
  rewrite Hsame in Hcase'.
  remember (new_in_cycle env' (after env w)) as new' eqn:Enew'.
  destruct (fetched (http env)) as [|p ps]; [done|].
  destruct new' as [|q qs]; [by rewrite <- Hagain in Hnew|].
  by destruct Hcase' as (? & _).
Qed.

(** C6. A key that is in the persisted seen set stays in it through every
    later cycle of [ProductChecker.run], and no later cycle classifies a
    listing with that key as new: the seen set of a site only grows. *)
Theorem seen_keys_stay_seen (envs : list Env) (w : World) (k : string) :
  k ∈ seen_of w →
  k ∈ seen_of (cycles envs w)
  ∧ seen_of w ⊆ seen_of (cycles envs w)
  ∧ ∀ env p, clean_url p = k → p ∉ new_in_cycle env (cycles envs w).
Proof.
  intros Hk. pose proof (seen_of_cycles envs w) as Hgrow.
  split; [by apply Hgrow|]. split; [done|].
  intros env p Hp. unfold new_in_cycle. rewrite scan_filter. simpl.
  rewrite list_elem_of_filter. intros [Hnew _]. apply Hnew.
  rewrite Hp. by apply Hgrow.
Qed.

(** C7, as the code has it. A fetch that fails, by the request, the
    status or the parser, makes [fetch_products] log a line that starts
    with ERROR and return the empty list, normally, with the stores as
    they were: the value a fetch without listings returns too.  The cycle
    treats the two alike: after either it logs the same line and ends
    without touching the stores. *)
Theorem failed_fetch_returns_empty_list (net : network) (w : World) :
  fetch_failed net = true →
  (fetch_products net w).1 = Return []
  ∧ same_store w (fetch_products net w).2
  ∧ (∃ rest, log_file (fetch_products net w).2
             = log_file w ++ parser_lines net ++ ["ERROR" +:+ rest])
  ∧ ∀ env, fetched (http env) = [] →
      (run env w).1 = Return tt
      ∧ same_store w (after env w)
      ∧ log_file (after env w)
        = log_file (fetch_products (http env) w).2
          ++ ["No products found or fetch failed"].
Proof.
  intros Hfailed. split; [|split; [|split]].
  - destruct (fetch_products_run net w) as (w' & -> & Hsame).
    by rewrite (fetch_failed_fetched net Hfailed).
  - by destruct (fetch_products_run net w) as (w' & -> & Hsame).
  - revert Hfailed. unfold fetch_products, fetch_failed, parser_lines.
    munfold. destruct (net search_url) as [e|code text]; simpl.
    { intros _. by exists (" fetching products: " +:+ exn_text e). }
    destruct (decide (code ≠ 200%Z)), (decide (code = 200%Z)); try done;
      simpl.
    { intros _. by exists (": Status code " +:+ pretty code). }
    destruct (parse_products net text) as [lines [ps|err]]; simpl; [done|].
    intros _. exists (" fetching products: " +:+ exn_text err).
    by rewrite <- app_assoc.
  - intros env Hnone. unfold after, run.
    rewrite (bind_run _ _ _ _ _ (load_seen_products_run w)).
    destruct (fetch_products_run (http env) w) as (w1 & Hf & Hsame).
    rewrite (bind_run _ _ _ _ _ Hf), Hf, Hnone.
    unfold log, modify. simpl. split; [done|]. split; [|done].
    eapply same_store_trans; [done|apply same_store_log].
Qed.
End BaseClaims.

(** A request that raises: the cycle ends with the world it found, but for
    the log. *)
Lemma empty_fetch_stops_cycle_witness :
  (@run jonas (env_of timed_out [] noon smtp_up) fresh).1 = Return tt
  ∧ seen_products_file (@after jonas (env_of timed_out [] noon smtp_up) fresh)
    = seen_products_file fresh
  ∧ smtp_attempts (@after jonas (env_of timed_out [] noon smtp_up) fresh)
    = smtp_attempts fresh
  ∧ signed_seen_file (@after jonas (env_of timed_out [] noon smtp_up) fresh)
    = signed_seen_file fresh
  ∧ lock_file (@after jonas (env_of timed_out [] noon smtp_up) fresh)
    = lock_file fresh.
Proof.
  apply (@empty_fetch_stops_cycle jonas (env_of timed_out [] noon smtp_up)
           fresh).
  reflexivity.
Defined.

(** Two new listings and a server that is down. *)
Lemma failed_send_keeps_store_witness :
  seen_products_file (@after jonas (env_of page_ok [] noon smtp_down) fresh)
  = seen_products_file fresh
  ∧ lock_file (@after jonas (env_of page_ok [] noon smtp_down) fresh)
    = lock_file fresh
  ∧ ∀ env',
      @fetched jonas (http env')
      = @fetched jonas (http (env_of page_ok [] noon smtp_down)) →
      @new_in_cycle jonas env'
        (@after jonas (env_of page_ok [] noon smtp_down) fresh)
      = @new_in_cycle jonas (env_of page_ok [] noon smtp_down) fresh
      ∧ smtp_attempts
          (@after jonas env'
             (@after jonas (env_of page_ok [] noon smtp_down) fresh))
        = smtp_attempts
            (@after jonas (env_of page_ok [] noon smtp_down) fresh)
          ++ [(@new_items_email jonas env'
                 (@after jonas (env_of page_ok [] noon smtp_down) fresh),
               delivered (smtp env')
                 (@new_items_email jonas env'
                    (@after jonas (env_of page_ok [] noon smtp_down)
                       fresh)))].
Proof.
  apply (@failed_send_keeps_store jonas
           (env_of page_ok [] noon smtp_down) fresh).
  - vm_compute. discriminate.
  - reflexivity.
Defined.

(** The key of the tee, committed by a cycle that delivered, through two
    more cycles. *)
Lemma seen_keys_stay_seen_witness :
  "https://shop.jonasbrothers.com/products/tee"
  ∈ seen_of
      (@cycles jonas
         [env_of page_ok [] noon smtp_down; env_of page_503 [] noon smtp_up]
         (@after jonas (env_of page_ok [] noon smtp_up) fresh))
  ∧ seen_of (@after jonas (env_of page_ok [] noon smtp_up) fresh)
    ⊆ seen_of
        (@cycles jonas
           [env_of page_ok [] noon smtp_down; env_of page_503 [] noon smtp_up]
           (@after jonas (env_of page_ok [] noon smtp_up) fresh))
  ∧ ∀ env p,
      clean_url p = "https://shop.jonasbrothers.com/products/tee" →
      p ∉ @new_in_cycle jonas env
            (@cycles jonas
               [env_of page_ok [] noon smtp_down;
                env_of page_503 [] noon smtp_up]
               (@after jonas (env_of page_ok [] noon smtp_up) fresh)).
Proof.
  apply (@seen_keys_stay_seen jonas).
  vm_compute. reflexivity.
Defined.

(** A reply with status 503. *)
Lemma failed_fetch_returns_empty_list_witness :
  (@fetch_products jonas (λ _, page_503) fresh).1 = Return []
  ∧ same_store fresh (@fetch_products jonas (λ _, page_503) fresh).2
  ∧ (∃ rest, log_file (@fetch_products jonas (λ _, page_503) fresh).2
             = log_file fresh ++ @parser_lines jonas (λ _, page_503)
               ++ ["ERROR" +:+ rest])
  ∧ ∀ env, @fetched jonas (http env) = [] →
      (@run jonas env fresh).1 = Return tt
      ∧ same_store fresh (@after jonas env fresh)
      ∧ log_file (@after jonas env fresh)
        = log_file (@fetch_products jonas (http env) fresh).2
          ++ ["No products found or fetch failed"].
Proof.
  apply (@failed_fetch_returns_empty_list jonas (λ _, page_503) fresh).
  reflexivity.
Defined.

(** C7, as stated, fails: a reply with status 503 and a page without
    listings make [fetch_products] return the same value, so no reader of
    that value tells the failed fetch from the empty one. *)
Lemma failure_is_not_distinguishable : ¬ failure_is_distinguishable.
Proof.
  intros [reader Hreader].
  pose proof (Hreader jonas_empty (λ _, page_503) fresh) as Hfailed.
  pose proof (Hreader jonas_empty (λ _, page_ok) fresh) as Hempty.
  vm_compute in Hfailed, Hempty. congruence.
Qed.

(** ** One cycle of [TaylorSwiftChecker.run] *)

Module TaylorSwiftCycle.
Import TaylorSwift TaylorSwiftObservations.

Lemma fetch_pages_run replies page acc w :
  ∃ w', fetch_pages replies page acc w
        = (Return (acc ++ pages_products replies), w')
        ∧ same_store w w'.
Proof.
  revert page acc w.
  induction replies as [|r replies IH]; intros page acc w; simpl.
  { rewrite app_nil_r. eexists; split; [done|apply same_store_refl]. }
  destruct r as [err|code converted stopped]; munfold.
  { rewrite app_nil_r. eexists; split; [done|apply same_store_log]. }
  destruct (decide (code ≠ 200%Z)), (decide (code = 200%Z)); try done.
  { rewrite app_nil_r. eexists; split; [done|apply same_store_log]. }
  destruct converted as [|p ps], stopped as [ex|]; simpl.
  - eexists; split; [done|apply same_store_log].
  - rewrite app_nil_r. eexists; split; [done|apply same_store_refl].
  - eexists; split; [done|apply same_store_log].
  - destruct (IH (S page) (acc ++ p :: ps) (add_log_line
      ("Page " +:+ pretty page +:+ ": fetched "
       +:+ pretty (S (length ps)) +:+ " products") w))
      as (w' & -> & Hsame).
    rewrite <- app_assoc. eexists; split; [done|].
    eapply same_store_trans; [apply same_store_log|done].
Qed.

Lemma shopify_fetch_run replies w :
  ∃ w', TaylorSwift.fetch_products replies w
        = (Return (pages_products replies), w')
        ∧ same_store w w'.
Proof.
  unfold TaylorSwift.fetch_products.
  destruct (fetch_pages_run replies 1 [] w) as (w1 & Hf & Hsame).
  rewrite (bind_run _ _ _ _ _ Hf). munfold. simpl.
  eexists; split; [done|].
  eapply same_store_trans; [done|apply same_store_log].
Qed.

Lemma categorize_step_run seen signed_seen now acc p :
  categorize_step seen signed_seen now acc p
  = match (if is_signed p && is_available p
           then past_cooldown signed_seen now (clean_url p)
           else Return false) with
    | Raise e => Raise e
    | Return taken =>
        Return
          {| new_products :=
               new_products acc ++ filter (λ p, clean_url p ∉ seen) [p];
             signed_in_stock :=
               signed_in_stock acc ++ (if taken : bool then [p] else []);
             all_current_urls := all_current_urls acc ∪ {[ clean_url p ]} |}
    end.
Proof.
  unfold categorize_step. rewrite filter_cons, filter_nil.
  destruct (is_signed p && is_available p).
  - destruct (past_cooldown signed_seen now (clean_url p)) as [taken|e];
      [|done].
    unfold mbind, outcome_bind. f_equal. f_equal.
    + destruct (decide (clean_url p ∉ seen)); [done|by rewrite app_nil_r].
    + destruct taken; [done|by rewrite app_nil_r].
  - f_equal. f_equal.
    + destruct (decide (clean_url p ∉ seen)); [done|by rewrite app_nil_r].
    + by rewrite app_nil_r.
Qed.

Lemma categorize_loop seen signed_seen now products acc :
  for_each (categorize_step seen signed_seen now) products acc
  = match loop_error signed_seen now products with
    | Some e => Raise e
    | None =>
        Return
          {| new_products :=
               new_products acc ++ filter (λ p, clean_url p ∉ seen) products;
             signed_in_stock :=
               signed_in_stock acc
               ++ filter (λ p, due signed_seen now p) products;
             all_current_urls :=
               all_current_urls acc ∪ list_to_set (clean_url <$> products) |}
    end.
Proof.
  revert acc. induction products as [|p products IH]; intros acc.
  { simpl. rewrite !app_nil_r. destruct acc; simpl. do 2 f_equal. set_solver. }
  cbn [for_each loop_error]. rewrite categorize_step_run.
  rewrite (filter_cons (λ p, due signed_seen now p)).
  rewrite (filter_cons (λ p, clean_url p ∉ seen) p products).
  rewrite filter_cons, filter_nil.
  destruct (is_signed p && is_available p) eqn:Hflags.
  - destruct (past_cooldown signed_seen now (clean_url p)) as [taken|e] eqn:Hpc;
      [|done].
    assert (due signed_seen now p = taken) as ->
      by (unfold due; by rewrite Hflags, Hpc).
    unfold mbind, outcome_bind. rewrite IH.
    cbn [new_products signed_in_stock all_current_urls].
    destruct (loop_error signed_seen now products); [done|].
    do 2 f_equal.
    + destruct (decide (clean_url p ∉ seen)); by rewrite <- app_assoc.
    + destruct taken; by rewrite <- app_assoc.
    + set_solver.
  - assert (due signed_seen now p = false) as ->
      by (unfold due; by rewrite Hflags).
    assert (match past_cooldown signed_seen now (clean_url p) with
            | Return _ | Raise _ => loop_error signed_seen now products
            end = loop_error signed_seen now products) as ->
      by (by destruct (past_cooldown _ _ _)).
    unfold mbind, outcome_bind. rewrite IH.
    cbn [new_products signed_in_stock all_current_urls].
    destruct (loop_error signed_seen now products); [done|].
    do 2 f_equal.
    + destruct (decide (clean_url p ∉ seen)); by rewrite <- app_assoc.
    + by rewrite <- app_assoc.
    + set_solver.
Qed.

Lemma categorize_filter seen signed_seen now products :
  categorize seen signed_seen now products
  = match loop_error signed_seen now products with
    | Some e => Raise e
    | None =>
        Return
          {| new_products := filter (λ p, clean_url p ∉ seen) products;
             signed_in_stock := filter (λ p, due signed_seen now p) products;
             all_current_urls := list_to_set (clean_url <$> products) |}
    end.
Proof.
  unfold categorize. rewrite categorize_loop. simpl.
  destruct (loop_error signed_seen now products); [done|].
  do 2 f_equal. set_solver.
Qed.

(** A listing is taken for the signed alert only when the value loaded
    is a mapping. *)
Lemma due_dict signed_seen now p :
  due signed_seen now p = true → ∃ entries, signed_seen = VDict entries.
Proof.
  unfold due, past_cooldown, get.
  destruct signed_seen; try (by rewrite andb_false_r). by eexists.
Qed.

Lemma mark_alerted_dict now signed entries :
  mark_alerted now signed (VDict entries)
  = Return (VDict (mark_entries now signed entries)).
Proof.
  unfold mark_alerted, mark_entries. revert entries.
  induction signed as [|p signed IH]; intros entries; [done|].
  simpl. unfold mbind, outcome_bind. apply IH.
Qed.

Lemma mark_alerted_lookup now signed entries k :
  mark_entries now signed entries !! k
  = if decide (k ∈ signed_urls signed) then Some (VFloat now)
    else entries !! k.
Proof.
  unfold mark_entries, signed_urls. revert entries.
  induction signed as [|p signed IH]; intros entries; simpl.
  { by rewrite decide_False by set_solver. }
  rewrite IH.
  destruct (decide (k ∈ list_to_set (clean_url <$> signed))) as [Hin|Hout].
  - by rewrite decide_True by set_solver.
  - destruct (decide (k = clean_url p)) as [->|Hne].
    + rewrite lookup_insert_eq. by rewrite decide_True by set_solver.
    + rewrite lookup_insert_ne by done. by rewrite decide_False by set_solver.
Qed.

(** The categories of a cycle whose loop is not left by an exception. *)
Lemma categories_filter env w :
  loop_error (loaded_signed_seen w) (now env) (pages_products (shopify env))
  = None →
  classified env w = Return (categories env w)
  ∧ categories env w
    = {| new_products :=
           filter (λ p, clean_url p ∉ seen_of w) (pages_products (shopify env));
         signed_in_stock :=
           filter (λ p, due (loaded_signed_seen w) (now env) p)
             (pages_products (shopify env));
         all_current_urls :=
           list_to_set (clean_url <$> pages_products (shopify env)) |}.
Proof.
  intros Hok. unfold categories, classified.
  by rewrite categorize_filter, Hok.
Qed.

Lemma categories_raised env w e :
  loop_error (loaded_signed_seen w) (now env) (pages_products (shopify env))
  = Some e →
  classified env w = Raise e
  ∧ categories env w
    = {| new_products := []; signed_in_stock := []; all_current_urls := ∅ |}.
Proof.
  intros Hraised. unfold categories, classified.
  by rewrite categorize_filter, Hraised.
Qed.

(** The listings of a signed alert are due, and the value loaded is a
    mapping. *)
Lemma signed_in_stock_due env w q :
  q ∈ signed_in_stock (categories env w) →
  due (loaded_signed_seen w) (now env) q = true
  ∧ q ∈ pages_products (shopify env)
  ∧ loaded_signed_seen w = VDict (signed_seen_of w).
Proof.
  unfold categories, classified. rewrite categorize_filter.
  destruct (loop_error _ _ _); simpl; [by intros ?%elem_of_nil|].
  intros [Hdue Hin]%list_elem_of_filter.
  apply Is_true_true in Hdue. split; [done|]. split; [done|].
  destruct (due_dict _ _ _ Hdue) as [entries Hdict].
  unfold signed_seen_of. by rewrite Hdict.
Qed.

(** What a cycle does to the store and to the record of the SMTP
    attempts: when it fetches nothing, when an exception leaves its loop,
    and when the loop hands on its three lists. *)
Lemma signed_run_spec env w :
  let c := categories env w in
  lock_file (after env w) = lock_file w
  ∧ match pages_products (shopify env) with
    | [] =>
        (TaylorSwift.run env w).1 = Return tt
        ∧ seen_products_file (after env w) = seen_products_file w
        ∧ signed_seen_file (after env w) = signed_seen_file w
        ∧ smtp_attempts (after env w) = smtp_attempts w
    | _ :: _ =>
        match classified env w with
        | Raise e =>
            (TaylorSwift.run env w).1 = Raise e
            ∧ seen_products_file (after env w) = seen_products_file w
            ∧ signed_seen_file (after env w) = signed_seen_file w
            ∧ smtp_attempts (after env w) = smtp_attempts w
        | Return _ =>
            (TaylorSwift.run env w).1 = Return tt
            ∧ smtp_attempts (after env w)
              = smtp_attempts w
                ++ attempt (smtp env) (signed_in_stock c) (signed_email env w)
                ++ match new_products c with
                   | [] => []
                   | _ :: _ =>
                       attempt (smtp env) (new_items_sent env w)
                         (new_email env w)
                   end
            ∧ seen_products_file (after env w)
              = Stored (elements
                          match new_products c with
                          | [] => seen_of w
                          | _ :: _ => seen_of w ∪ all_current_urls c
                          end)
            ∧ signed_seen_file (after env w)
              = match signed_in_stock c with
                | [] => signed_seen_file w
                | _ :: _ =>
                    if delivered (smtp env) (signed_email env w)
                    then Stored (VDict (mark_entries (now env)
                                          (signed_in_stock c)
                                          (signed_seen_of w)))
                    else signed_seen_file w
                end
        end
    end.
Proof.
  intros c. unfold after, TaylorSwift.run.
  rewrite (bind_run _ _ _ _ _ (load_seen_products_run w)).
  rewrite (bind_run _ _ _ _ _ (load_signed_seen_run w)).
  destruct (shopify_fetch_run (shopify env) w)
    as (w1 & Hf & Hs1 & Hg1 & Hl1 & Ha1).
  rewrite (bind_run _ _ _ _ _ Hf).
  pose proof (signed_in_stock_due env w) as Hdue. fold c in Hdue.
  unfold new_email, new_items_sent, signed_email. fold c.
  assert (categorize (seen_of w) (loaded_signed_seen w) (now env)
            (pages_products (shopify env)) = classified env w) as Hloop
    by done.
  assert (∀ c0, classified env w = Return c0 → c0 = c) as Hc.
  { intros c0 E. subst c. unfold categories. by rewrite E. }
  destruct (pages_products (shopify env)) as [|p ps].
  { unfold log, modify; simpl. by rewrite Hs1, Hg1, Hl1, Ha1. }
  rewrite Hloop. clear Hloop.
  destruct (classified env w) as [c0|e].
  2: { rewrite !bind_lift_raise. simpl. by rewrite Hs1, Hg1, Hl1, Ha1. }
  rewrite (Hc c0 eq_refl). clear Hc c0.
  rewrite !bind_lift_return.
  set (smsg := {| subject := "🚨 SIGNED Taylor Swift Items IN STOCK! - "
                    +:+ pretty (length (signed_in_stock c))
                    +:+ " item(s) - " +:+ timestamp env;
                  body := _build_signed_email (signed_in_stock c) |}).
  set (nmsg := {| subject :=
                    get_email_subject
                      (new_non_signed (new_products c) (signed_in_stock c))
                      (timestamp env);
                  body :=
                    build_email_body
                      (new_non_signed (new_products c)
                         (signed_in_stock c)) |}).
  (* the signed alert *)
  match goal with |- context [mbind _ ?m w1] => set (signed_part := m) end.
  assert (∃ w2, signed_part w1 = (Return tt, w2)
                ∧ seen_products_file w2 = seen_products_file w
                ∧ lock_file w2 = lock_file w
                ∧ smtp_attempts w2
                  = smtp_attempts w
                    ++ attempt (smtp env) (signed_in_stock c) smsg
                ∧ signed_seen_file w2
                  = match signed_in_stock c with
                    | [] => signed_seen_file w
                    | _ :: _ =>
                        if delivered (smtp env) smsg
                        then Stored (VDict (mark_entries (now env)
                                              (signed_in_stock c)
                                              (signed_seen_of w)))
                        else signed_seen_file w
                    end) as (w2 & Hsigned & Hs2 & Hl2 & Ha2 & Hg2).
  { subst signed_part. destruct (signed_in_stock c) as [|q qs] eqn:Hq.
    { eexists. split; [done|]. simpl.
      by rewrite app_nil_r, Hs1, Hg1, Hl1, Ha1. }
    destruct (Hdue q (list_elem_of_here _ _)) as (_ & _ & Hdict).
    destruct (send_email_run (smtp env) (subject smsg) (body smsg) w1)
      as (w2 & Hsend & Hs2 & Hg2 & Hl2 & Ha2).
    change {| subject := subject smsg; body := body smsg |} with smsg in *.
    rewrite (bind_run _ _ _ _ _ Hsend).
    rewrite Hdict, mark_alerted_dict.
    destruct (delivered (smtp env) smsg) eqn:Hd;
      rewrite ?bind_lift_return; munfold;
      unfold _save_signed_seen, modify; simpl; eexists;
      (split; [done|]); simpl;
      by rewrite ?Hd, ?Hs2, ?Hs1, ?Hg2, ?Hg1, ?Hl2, ?Hl1, ?Ha2, ?Ha1. }
  rewrite (bind_run _ _ _ _ _ Hsigned). clear Hsigned.
  (* the new-items alert *)
  destruct (new_products c) as [|n ns] eqn:Hn.
  { munfold. unfold save_seen_products, modify. simpl.
    by rewrite app_nil_r, Hl2, Ha2, Hg2. }
  match goal with |- context [mbind _ ?m w2] => set (new_part := m) end.
  assert (∃ w3, new_part w2 = (Return tt, w3)
                ∧ signed_seen_file w3 = signed_seen_file w2
                ∧ lock_file w3 = lock_file w2
                ∧ smtp_attempts w3
                  = smtp_attempts w2
                    ++ attempt (smtp env)
                         (new_non_signed (n :: ns) (signed_in_stock c))
                         nmsg) as (w3 & Hnew & Hg3 & Hl3 & Ha3).
  { subst new_part.
    destruct (new_non_signed (n :: ns) (signed_in_stock c))
      as [|m ms] eqn:Hm.
    { eexists. split; [done|]. simpl. by rewrite app_nil_r. }
    destruct (send_email_run (smtp env) (subject nmsg) (body nmsg) w2)
      as (w3 & Hsend & Hs3 & Hg3 & Hl3 & Ha3).
    change {| subject := subject nmsg; body := body nmsg |} with nmsg in *.
    rewrite (bind_run _ _ _ _ _ Hsend).
    destruct (delivered (smtp env) nmsg) eqn:Hd; munfold; simpl; eexists;
      (split; [done|]); simpl; by rewrite ?Hd, ?Hg3, ?Hl3, ?Ha3. }
  rewrite (bind_run _ _ _ _ _ Hnew). clear Hnew.
  munfold. unfold save_seen_products, modify. simpl.
  by rewrite Hl3, Hl2, Ha3, Ha2, Hg3, Hg2, <- app_assoc.
Qed.
End TaylorSwiftCycle.

(** ** Claims about [TaylorSwiftChecker] and the loaders *)

Module TaylorSwiftClaims.
Import TaylorSwift TaylorSwiftObservations TaylorSwiftCycle.

Lemma due_iff signed_seen now p :
  due signed_seen now p = true
  ↔ is_signed p = true ∧ is_available p = true
    ∧ past_cooldown signed_seen now (clean_url p) = Return true.
Proof.
  unfold due. rewrite !andb_true_iff.
  destruct (past_cooldown signed_seen now (clean_url p)) as [[]|];
    naive_solver.
Qed.

Lemma past_cooldown_absent entries now key :
  entries !! key = None →
  past_cooldown (VDict entries) now key
  = Return (float_ge_int (float_sub now (Finite 0)) SIGNED_COOLDOWN_SECONDS).
Proof. unfold past_cooldown, get. by intros ->. Qed.

Lemma past_cooldown_float entries now key T :
  entries !! key = Some (VFloat T) →
  past_cooldown (VDict entries) now key
  = Return (float_ge_int (float_sub now T) SIGNED_COOLDOWN_SECONDS).
Proof. unfold past_cooldown, get. by intros ->. Qed.

(** The loop is not left by an exception when the mapping holds floats. *)
Lemma float_mapping_no_error signed_seen now products :
  float_mapping signed_seen → loop_error signed_seen now products = None.
Proof.
  intros [times ->]. induction products as [|p products IH]; [done|].
  cbn [loop_error].
  destruct (times !! clean_url p) as [T|] eqn:HT.
  - rewrite (past_cooldown_float _ _ _ T); [done|].
    by rewrite lookup_fmap, HT.
  - rewrite past_cooldown_absent; [done|].
    by rewrite lookup_fmap, HT.
Qed.

(** C4, as the code has it. The loop of [TaylorSwiftChecker.run] puts a
    listing in the signed partition exactly when it is signed, available
    and the test [(now - last_alerted) >= SIGNED_COOLDOWN_SECONDS] gives
    [True], with [last_alerted] 0 for a key that the signed-seen mapping
    lacks and 7200 for the cooldown.  The difference is the float
    difference, rounded to nearest: for a key whose last alert is the
    float [T] the listing is left out while the rounded [now - T] is under
    the cooldown and taken from then on.  [T] is what a delivered signed
    alert at time [T] records for each of its keys, and over a mapping of
    floats the loop always comes to its end. *)
Theorem signed_partition (seen : gset string) (signed_seen : value)
    (now : float) (products : list Product) (p : Product) :
  (∀ c, categorize seen signed_seen now products = Return c →
        (p ∈ signed_in_stock c
         ↔ p ∈ products ∧ is_signed p = true ∧ is_available p = true
           ∧ past_cooldown signed_seen now (clean_url p) = Return true))
  ∧ SIGNED_COOLDOWN_SECONDS = 7200%Z
  ∧ (∀ entries, signed_seen = VDict entries →
        entries !! clean_url p = None →
        past_cooldown signed_seen now (clean_url p)
        = Return (float_ge_int (float_sub now (Finite 0)) 7200))
  ∧ (∀ entries T, signed_seen = VDict entries →
        entries !! clean_url p = Some (VFloat T) →
        past_cooldown signed_seen now (clean_url p)
        = Return (float_ge_int (float_sub now T) 7200))
  ∧ (∀ T alerted entries, p ∈ alerted →
        mark_alerted T alerted (VDict entries)
        = Return (VDict (mark_entries T alerted entries))
        ∧ mark_entries T alerted entries !! clean_url p = Some (VFloat T))
  ∧ (float_mapping signed_seen →
     ∃ c, categorize seen signed_seen now products = Return c).
Proof.
  split; [|split; [done|split; [|split; [|split]]]].
  - intros c. rewrite categorize_filter.
    destruct (loop_error signed_seen now products); [done|].
    intros [= <-]. simpl. rewrite list_elem_of_filter, Is_true_true, due_iff.
    tauto.
  - intros entries -> Habsent. by apply past_cooldown_absent.
  - intros entries T -> HT. by apply past_cooldown_float.
  - intros T alerted entries Hp. split; [apply mark_alerted_dict|].
    rewrite mark_alerted_lookup, decide_True; [done|]. unfold signed_urls.
    apply elem_of_list_to_set, list_elem_of_fmap. eauto.
  - intros Hfloats. rewrite categorize_filter.
    rewrite (float_mapping_no_error _ _ _ Hfloats). by eexists.
Qed.

(** C4, as stated, fails: with a last alert at [2^-60] seconds and [now]
    at 7200 seconds the exact difference is under the cooldown, the float
    difference rounds to 7200.0, and the listing is in the signed
    partition. *)
Lemma cooldown_is_not_exact : ¬ cooldown_is_exact.
Proof.
  intros Hexact.
  destruct (Hexact ∅
              {[ "https://store.taylorswift.com/products/signed-cd"
                 := (2 ^ 1014)%Z ]}
              (7200 * 2 ^ 1074)%Z [signed_cd] signed_cd) as (c & Hc & Hiff).
  assert (c = {| new_products := [signed_cd]; signed_in_stock := [signed_cd];
                 all_current_urls :=
                   {[ "https://store.taylorswift.com/products/signed-cd" ]} |})
    as ->.
  { vm_compute in Hc. by injection Hc as <-. }
  destruct Hiff as [Hin _].
  destruct (Hin (list_elem_of_here _ _)) as (_ & _ & _ & Hle).
  vm_compute in Hle. by apply Hle.
Qed.

(** A cycle with new listings writes the seen set with the keys of the
    cycle, whatever the server did with the messages of the cycle. *)
Lemma new_listings_commit_regardless env w :
  new_products (categories env w) ≠ [] →
  seen_products_file (after env w)
  = Stored (elements (seen_of w ∪ all_current_urls (categories env w))).
Proof.
  intros Hnew. destruct (signed_run_spec env w) as (_ & Hcase).
  destruct (pages_products (shopify env)) as [|p ps] eqn:Hps.
  { exfalso. apply Hnew. unfold categories, classified. by rewrite Hps. }
  unfold categories in *. destruct (classified env w); [|done].
  destruct Hcase as (_ & _ & Hseen & _).
  by destruct (new_products _).
Qed.

(** C1 fails on the code. A cycle of [TaylorSwiftChecker.run] that finds
    one new listing and cannot deliver the message about it writes the
    key of the listing to the seen-set file all the same. *)
Theorem failed_send_still_marks_seen :
  smtp_attempts
    (after (env_of page_ok [Page 200 [cardigan] None] noon smtp_down) fresh)
  = [(new_email
        (env_of page_ok [Page 200 [cardigan] None] noon smtp_down) fresh,
      false)]
  ∧ seen_products_file fresh = Absent
  ∧ seen_products_file
      (after (env_of page_ok [Page 200 [cardigan] None] noon smtp_down)
         fresh)
    = Stored ["https://store.taylorswift.com/products/cardigan"].
Proof. by vm_compute. Qed.

(** C5 fails on the code. A cycle of [TaylorSwiftChecker.run] that finds
    one new listing, signed and in stock, and cannot deliver the signed
    alert leaves the listing out of the new-items message: no such
    message is tried, and the key goes to the seen-set file. *)
Theorem failed_signed_alert_still_excludes :
  new_products
    (categories (env_of page_ok [Page 200 [signed_cd] None] noon smtp_down)
       fresh)
  = [signed_cd]
  ∧ smtp_attempts
      (after (env_of page_ok [Page 200 [signed_cd] None] noon smtp_down)
         fresh)
    = [(signed_email
          (env_of page_ok [Page 200 [signed_cd] None] noon smtp_down) fresh,
        false)]
  ∧ new_items_sent
      (env_of page_ok [Page 200 [signed_cd] None] noon smtp_down) fresh
    = []
  ∧ signed_seen_file
      (after (env_of page_ok [Page 200 [signed_cd] None] noon smtp_down)
         fresh)
    = Absent
  ∧ seen_products_file
      (after (env_of page_ok [Page 200 [signed_cd] None] noon smtp_down)
         fresh)
    = Stored ["https://store.taylorswift.com/products/signed-cd"].
Proof. by vm_compute. Qed.

(** C9 holds of the loaders on a file that is missing or that cannot be
    read, and fails on the cycle.  Both loaders return the empty set or
    mapping there, without touching the world.  But [_load_signed_seen]
    returns whatever value the file decodes to: with the JSON text [[]] in
    the signed-seen file and one listing fetched that is signed and in
    stock, [signed_seen.get] raises [AttributeError] out of
    [TaylorSwiftChecker.run], before anything is sent or saved. *)
Theorem wrong_shape_ends_cycle (w : World) (e : exn) :
  load_seen_products (set_seen_products_file Absent w)
  = (Return ∅, set_seen_products_file Absent w)
  ∧ load_seen_products (set_seen_products_file (Damaged e) w)
    = (Return ∅, set_seen_products_file (Damaged e) w)
  ∧ _load_signed_seen (set_signed_seen_file Absent w)
    = (Return (VDict ∅), set_signed_seen_file Absent w)
  ∧ _load_signed_seen (set_signed_seen_file (Damaged e) w)
    = (Return (VDict ∅), set_signed_seen_file (Damaged e) w)
  ∧ _load_signed_seen listed = (Return (VList []), listed)
  ∧ (TaylorSwift.run
       (env_of page_ok [Page 200 [signed_cd] None] noon smtp_up) listed).1
    = Raise (Exception "'list' object has no attribute 'get'")
  ∧ smtp_attempts
      (after (env_of page_ok [Page 200 [signed_cd] None] noon smtp_up)
         listed)
    = []
  ∧ seen_products_file
      (after (env_of page_ok [Page 200 [signed_cd] None] noon smtp_up)
         listed)
    = Absent.
Proof.
  split; [apply load_seen_products_run|].
  split; [apply load_seen_products_run|].
  split; [apply load_signed_seen_run|].
  split; [apply load_signed_seen_run|].
  by vm_compute.
Qed.
End TaylorSwiftClaims.

(** * More of the checker *)

(** ** The store and the keys *)

(** X1. What [save_seen_products] writes, [load_seen_products] reads back
    as the same set, and what [_save_signed_seen] writes,
    [_load_signed_seen] reads back as the same mapping; saving one store
    leaves the other store, the lock file and the record of the SMTP
    attempts alone. *)
Theorem store_round_trip (seen : gset string) (signed : value)
    (w : World) :
  (save_seen_products seen ≫= λ _, load_seen_products) w
  = (Return seen, set_seen_products_file (Stored (elements seen)) w)
  ∧ (TaylorSwift._save_signed_seen signed
       ≫= λ _, TaylorSwift._load_signed_seen) w
    = (Return signed, set_signed_seen_file (Stored signed) w)
  ∧ loaded_signed_seen (save_seen_products seen w).2 = loaded_signed_seen w
  ∧ seen_of (TaylorSwift._save_signed_seen signed w).2 = seen_of w.
Proof.
  split; [|split; [|done]].
  - unfold save_seen_products, modify.
    rewrite (bind_run _ _ w tt
               (set_seen_products_file (Stored (elements seen)) w) eq_refl).
    rewrite load_seen_products_run. f_equal. f_equal.
    unfold seen_of. simpl. apply list_to_set_elements_L.
  - unfold TaylorSwift._save_signed_seen, modify.
    rewrite (bind_run _ _ w tt
               (set_signed_seen_file (Stored signed) w) eq_refl).
    by rewrite load_signed_seen_run.
Qed.

Lemma split_first_query c path query :
  split_first c (path +:+ String c query) = split_first c path.
Proof.
  induction path as [|a path IH]; simpl.
  - by rewrite Ascii.eqb_refl.
  - destruct (Ascii.eqb a c); [done|]. by rewrite IH.
Qed.

Lemma split_first_idem c s : split_first c (split_first c s) = split_first c s.
Proof.
  induction s as [|a s IH]; simpl; [done|].
  destruct (Ascii.eqb a c) eqn:E; simpl; [done|]. by rewrite E, IH.
Qed.

(** X2. Two listings whose URLs are one path followed by different query
    strings have the same key, the key of the path; and the key of a key is
    the key itself. *)
Theorem key_ignores_query (p q : Product) (path query query' : string) :
  url p = path +:+ String "?" query →
  url q = path +:+ String "?" query' →
  clean_url p = clean_url q
  ∧ clean_url p = split_first "?" path
  ∧ split_first "?" (clean_url p) = clean_url p.
Proof.
  unfold clean_url. intros -> ->.
  rewrite !split_first_query. split; [done|]. split; [done|].
  apply split_first_idem.
Qed.

Lemma key_ignores_query_witness :
  clean_url tee = clean_url tee_again
  ∧ clean_url tee
    = split_first "?" "https://shop.jonasbrothers.com/products/tee"
  ∧ split_first "?" (clean_url tee) = clean_url tee.
Proof.
  apply (key_ignores_query tee tee_again
           "https://shop.jonasbrothers.com/products/tee"
           "variant=1" "variant=2"); reflexivity.
Defined.

(** ** The fetch of the base class and the log *)

Section BaseFetch.
Context `{Site}.

(** X3. [fetch_products] never raises and leaves the stores, the lock
    file and the record of the SMTP attempts alone.  To the log it adds
    the lines of the parser, none when the request raised or the status was
    not 200 and the parser was not called, and then, exactly when the fetch
    failed, one line that starts with ERROR.  The log is where a failed
    fetch and a page without listings can be told apart. *)
Theorem fetch_logs_failures_only (net : network) (w : World) :
  (fetch_products net w).1 = Return (fetched net)
  ∧ same_store w (fetch_products net w).2
  ∧ ((∀ text, net search_url ≠ Response 200 text) → parser_lines net = [])
  ∧ if fetch_failed net
    then ∃ rest, log_file (fetch_products net w).2
                 = log_file w ++ parser_lines net ++ ["ERROR" +:+ rest]
    else log_file (fetch_products net w).2 = log_file w ++ parser_lines net.
Proof.
  unfold fetch_products, fetched, fetch_failed, parser_lines. munfold.
  destruct (net search_url) as [e|code text]; simpl.
  { repeat split. by exists (" fetching products: " +:+ exn_text e). }
  destruct (decide (code ≠ 200%Z)), (decide (code = 200%Z)); try done; simpl.
  { repeat split. by exists (": Status code " +:+ pretty code). }
  subst code.
  destruct (parse_products net text) as [lines [ps|err]]; simpl.
  - repeat split. intros Hnot. by destruct (Hnot text).
  - repeat split; [intros Hnot; by destruct (Hnot text)|].
    exists (" fetching products: " +:+ exn_text err). by rewrite <- app_assoc.
Qed.
End BaseFetch.

(** ** The body of the message *)

Section Body.
Context `{Site}.

Lemma entries_length i (new : list Product) :
  length (concat (product_lines <$> enumerate i new)) = 4 * length new.
Proof.
  revert i. induction new as [|x new IH]; intros i; simpl; [done|].
  rewrite IH. lia.
Qed.

Lemma entries_lookup i (new : list Product) k p j :
  new !! k = Some p → j < 4 →
  concat (product_lines <$> enumerate i new) !! (4 * k + j)
  = product_lines (i + k, p) !! j.
Proof.
  revert i k. induction new as [|x new IH]; intros i k Hk Hj; [done|].
  destruct k as [|k]; simpl in Hk.
  - injection Hk as ->. rewrite Nat.add_0_r.
    destruct j as [|[|[|[|j]]]]; [done..|lia].
  - replace (4 * S k + j) with (S (S (S (S (4 * k + j))))) by lia.
    replace (i + S k) with (S i + k) by lia.
    exact (IH (S i) k Hk Hj).
Qed.

(** X4. The body that [build_email_body] builds is the intro, a rule, an
    empty line, four lines for each listing and three closing lines, the
    rule again, the search page and the note; the listing at position [k]
    of the list, counted from 0, is numbered [k + 1] and its title, price
    and link follow in that order. *)
Theorem body_lists_listings_in_order (new : list Product) :
  ∃ lines,
    build_email_body new = join_lines lines
    ∧ length lines = 4 * length new + 6
    ∧ lines !! 0 = Some get_email_intro
    ∧ lines !! 1 = Some (str_repeat "=" 50)
    ∧ lines !! 2 = Some ""
    ∧ lines !! (3 + 4 * length new) = Some (str_repeat "=" 50)
    ∧ lines !! (4 + 4 * length new)
      = Some (nl +:+ "Search page: " +:+ search_url)
    ∧ lines !! (5 + 4 * length new)
      = Some (nl +:+ "(You will only be notified about NEW items)")
    ∧ ∀ k p, new !! k = Some p →
        lines !! (3 + 4 * k) = Some (pretty (S k) +:+ ". " +:+ title p)
        ∧ lines !! (4 + 4 * k) = Some ("   Price: " +:+ price p)
        ∧ lines !! (5 + 4 * k) = Some ("   Link: " +:+ url p)
        ∧ lines !! (6 + 4 * k) = Some "".
Proof.
  eexists. split; [reflexivity|]. split; [|split; [done|]].
  - rewrite !length_app, entries_length. simpl. lia.
  - split; [done|]. split; [done|].
    assert (∀ j,
      ([get_email_intro; str_repeat "=" 50; ""]
       ++ concat (product_lines <$> enumerate 1 new)
       ++ [str_repeat "=" 50; nl +:+ "Search page: " +:+ search_url;
           nl +:+ "(You will only be notified about NEW items)"])
      !! (3 + (4 * length new + j))
      = [str_repeat "=" 50; nl +:+ "Search page: " +:+ search_url;
         nl +:+ "(You will only be notified about NEW items)"] !! j)
      as Hclosing.
    { intros j. rewrite lookup_app_r by (simpl; lia).
      rewrite lookup_app_r by (rewrite entries_length; simpl; lia).
      f_equal. rewrite entries_length. simpl. lia. }
    split.
    { replace (3 + 4 * length new) with (3 + (4 * length new + 0)) by lia.
      by rewrite Hclosing. }
    split.
    { replace (4 + 4 * length new) with (3 + (4 * length new + 1)) by lia.
      by rewrite Hclosing. }
    split.
    { replace (5 + 4 * length new) with (3 + (4 * length new + 2)) by lia.
      by rewrite Hclosing. }
    intros k p Hk.
    assert (∀ j, j < 4 →
      ([get_email_intro; str_repeat "=" 50; ""]
       ++ concat (product_lines <$> enumerate 1 new)
       ++ [str_repeat "=" 50; nl +:+ "Search page: " +:+ search_url;
           nl +:+ "(You will only be notified about NEW items)"])
      !! (3 + (4 * k + j))
      = product_lines (S k, p) !! j) as Hline.
    { intros j Hj. rewrite lookup_app_r by (simpl; lia).
      replace (3 + (4 * k + j) - length [get_email_intro; str_repeat "=" 50; ""])
        with (4 * k + j) by (simpl; lia).
      rewrite lookup_app_l.
      - by rewrite (entries_lookup 1 new k p j Hk Hj).
      - rewrite entries_length. apply lookup_lt_Some in Hk. lia. }
    repeat split.
    + replace (3 + 4 * k) with (3 + (4 * k + 0)) by lia. by rewrite Hline by lia.
    + replace (4 + 4 * k) with (3 + (4 * k + 1)) by lia. by rewrite Hline by lia.
    + replace (5 + 4 * k) with (3 + (4 * k + 2)) by lia. by rewrite Hline by lia.
    + replace (6 + 4 * k) with (3 + (4 * k + 3)) by lia. by rewrite Hline by lia.
Qed.
End Body.

Lemma filter_none {A} (P : A → Prop) `{!∀ x, Decision (P x)} (l : list A) :
  (∀ x, x ∈ l → ¬ P x) → filter P l = [].
Proof.
  induction l as [|x l IH]; intros Hl; [done|].
  rewrite filter_cons, decide_False by (apply Hl; left).
  apply IH. intros y Hy. apply Hl. by right.
Qed.

(** ** More on the cycle of [ProductChecker.run] *)

Section BaseCycleMore.
Context `{Site}.

Lemma new_in_cycle_nil env w : fetched (http env) = [] → new_in_cycle env w = [].
Proof. intros E. unfold new_in_cycle. by rewrite E. Qed.

Lemma send_email_delivered server subject body w b :
  (send_email server subject body w).1 = Return b →
  delivered server {| subject := subject; body := body |} = b.
Proof.
  destruct (send_email_run server subject body w) as (w' & Hrun & _).
  rewrite Hrun. simpl. by intros [= ->].
Qed.

(** The lock file after a cycle. *)
Lemma run_lock_file env w :
  lock_file (after env w)
  = match new_in_cycle env w with
    | [] => lock_file w
    | _ :: _ =>
        if delivered (smtp env) (new_items_email env w)
        then Some ("sent at " +:+ timestamp env +:+ nl +:+ "New items: "
                   +:+ pretty (length (new_in_cycle env w)))
        else lock_file w
    end.
Proof.
  destruct (run_spec env w) as (_ & _ & Hcase).
  destruct (fetched (http env)) as [|p ps] eqn:Hps.
  { rewrite (new_in_cycle_nil env w Hps). by destruct Hcase as (_ & ? & _). }
  destruct (new_in_cycle env w) as [|q qs] eqn:Hnew.
  { by destruct Hcase as (_ & ? & _). }
  cbv zeta in Hcase.
  destruct (delivered (smtp env) (new_items_email env w)) eqn:Hd;
    [|by destruct Hcase as (_ & _ & ?)].
  clear Hcase. revert Hd Hnew.
  unfold after, new_items_email, new_in_cycle, run.
  rewrite (bind_run _ _ _ _ _ (load_seen_products_run w)).
  destruct (fetch_products_run (http env) w) as (w1 & Hf & _).
  rewrite (bind_run _ _ _ _ _ Hf). rewrite Hps.
  destruct (scan (seen_of w) (p :: ps)) as [new urls].
  simpl fst. intros Hd ->.
  destruct (send_email_run (smtp env)
              (get_email_subject (q :: qs) (timestamp env))
              (build_email_body (q :: qs)) w1) as (w2 & Hsend & _).
  cbv zeta in Hsend. rewrite Hd in Hsend.
  by rewrite (bind_run _ _ _ _ _ Hsend).
Qed.

(** The messages of a cycle. *)
Lemma run_attempts env w :
  smtp_attempts (after env w)
  = smtp_attempts w
    ++ match new_in_cycle env w with
       | [] => []
       | _ :: _ =>
           [(new_items_email env w,
             delivered (smtp env) (new_items_email env w))]
       end.
Proof.
  destruct (run_spec env w) as (_ & _ & Hcase).
  destruct (fetched (http env)) as [|p ps] eqn:Hps.
  { rewrite (new_in_cycle_nil env w Hps), app_nil_r.
    by destruct Hcase as (_ & _ & ?). }
  destruct (new_in_cycle env w) as [|q qs].
  - rewrite app_nil_r. by destruct Hcase as (_ & _ & ?).
  - by destruct Hcase as (? & _).
Qed.

(** X5. When [send_email] returns [True] for the message about the new
    listings, the cycle adds the keys of everything it fetched, new or
    not, to the seen set and writes the lock file with the time and the
    number of new listings; a cycle that follows with the same fetch output
    has no new listing and sends nothing. *)
Theorem delivered_send_commits (env : Env) (w : World) :
  new_in_cycle env w ≠ [] →
  (send_email (smtp env) (subject (new_items_email env w))
     (body (new_items_email env w)) w).1 = Return true →
  seen_of (after env w) = seen_of w ∪ keys_in_cycle env
  ∧ lock_file (after env w)
    = Some ("sent at " +:+ timestamp env +:+ nl +:+ "New items: "
            +:+ pretty (length (new_in_cycle env w)))
  ∧ ∀ env', fetched (http env') = fetched (http env) →
      new_in_cycle env' (after env w) = []
      ∧ smtp_attempts (after env' (after env w))
        = smtp_attempts (after env w).
Proof.
  intros Hnew Hsend. apply send_email_delivered in Hsend.
  change {| subject := subject (new_items_email env w);
            body := body (new_items_email env w) |}
    with (new_items_email env w) in Hsend.
  assert (seen_of (after env w) = seen_of w ∪ keys_in_cycle env) as Hseen.
  { destruct (run_spec env w) as (_ & _ & Hcase).
    destruct (fetched (http env)) as [|p ps] eqn:Hps.
    { by rewrite (new_in_cycle_nil env w Hps) in Hnew. }
    destruct (new_in_cycle env w) as [|q qs]; [done|].
    cbv zeta in Hcase. rewrite Hsend in Hcase. destruct Hcase as (_ & Hfile).
    unfold seen_of at 1. rewrite Hfile. apply list_to_set_elements_L. }
  split; [done|]. split.
  { rewrite run_lock_file, Hsend. by destruct (new_in_cycle env w). }
  intros env' Hsame.
  assert (new_in_cycle env' (after env w) = []) as Hnone.
  { unfold new_in_cycle. rewrite scan_filter, Hseen, Hsame. simpl.
    unfold keys_in_cycle. rewrite scan_filter. simpl.
    apply filter_none. intros p Hp Hout. apply Hout.
    apply elem_of_union_r, elem_of_list_to_set, list_elem_of_fmap. eauto. }
  split; [done|]. by rewrite run_attempts, Hnone, app_nil_r.
Qed.

(** X6. A cycle that fetches listings of which none is new sends nothing,
    leaves the lock file alone and writes the seen-set file again with the
    set it read. *)
Theorem quiet_cycle_keeps_seen_set (env : Env) (w : World) :
  fetched (http env) ≠ [] →
  new_in_cycle env w = [] →
  seen_products_file (after env w) = Stored (elements (seen_of w))
  ∧ seen_of (after env w) = seen_of w
  ∧ smtp_attempts (after env w) = smtp_attempts w
  ∧ lock_file (after env w) = lock_file w.
Proof.
  intros Hfetched Hnone. destruct (run_spec env w) as (_ & _ & Hcase).
  destruct (fetched (http env)) as [|p ps]; [done|].
  rewrite Hnone in Hcase. destruct Hcase as (Hfile & Hlock & Hsent).
  split; [done|]. split; [|done].
  unfold seen_of at 1. rewrite Hfile. apply list_to_set_elements_L.
Qed.

(** X7. What a cycle does depends on the world it starts in through the
    seen-set file only: two worlds with the same seen-set file, whatever
    their lock files and logs, end with the same seen-set file, after the
    same messages.  A lock file left behind blocks nothing. *)
Theorem cycle_reads_seen_file_only (env : Env) (w1 w2 : World) :
  seen_products_file w1 = seen_products_file w2 →
  seen_products_file (after env w1) = seen_products_file (after env w2)
  ∧ ∃ sent, smtp_attempts (after env w1) = smtp_attempts w1 ++ sent
            ∧ smtp_attempts (after env w2) = smtp_attempts w2 ++ sent.
Proof.
  intros Hfile.
  assert (seen_of w1 = seen_of w2) as Hseen by (unfold seen_of; by rewrite Hfile).
  assert (new_in_cycle env w1 = new_in_cycle env w2) as Hnew
    by (unfold new_in_cycle; by rewrite Hseen).
  assert (new_items_email env w1 = new_items_email env w2) as Hmsg
    by (unfold new_items_email; by rewrite Hnew).
  split.
  - destruct (run_spec env w1) as (_ & _ & H1).
    destruct (run_spec env w2) as (_ & _ & H2).
    rewrite <- Hnew, <- Hmsg, <- Hseen in H2.
    destruct (fetched (http env)) as [|p ps].
    { destruct H1 as (-> & _), H2 as (-> & _). done. }
    destruct (new_in_cycle env w1) as [|q qs].
    { destruct H1 as (-> & _), H2 as (-> & _). done. }
    cbv zeta in H1, H2. destruct H1 as (_ & H1), H2 as (_ & H2).
    destruct (delivered (smtp env) (new_items_email env w1)).
    + by rewrite H1, H2.
    + destruct H1 as (-> & _), H2 as (-> & _). done.
  - eexists. split; [apply run_attempts|].
    rewrite run_attempts. by rewrite <- Hnew, <- Hmsg.
Qed.

(** X8. A cycle tries one message when it has new listings and none
    otherwise; the message is the one about its new listings, and through
    any number of cycles the record of the attempts only gets longer. *)
Theorem one_message_per_cycle (envs : list Env) (env : Env) (w : World) :
  smtp_attempts (after env w)
  = smtp_attempts w
    ++ match new_in_cycle env w with
       | [] => []
       | _ :: _ =>
           [(new_items_email env w,
             delivered (smtp env) (new_items_email env w))]
       end
  ∧ smtp_attempts w `prefix_of` smtp_attempts (cycles envs w)
  ∧ (length (smtp_attempts (cycles envs w))
     ≤ length (smtp_attempts w) + length envs)%nat.
Proof.
  split; [apply run_attempts|]. clear env.
  revert w. induction envs as [|env envs IH]; intros w; simpl.
  { split; [done|lia]. }
  destruct (IH (after env w)) as [Hprefix Hlength].
  rewrite run_attempts in Hprefix, Hlength. split.
  - etrans; [|exact Hprefix]. by apply prefix_app_r.
  - rewrite length_app in Hlength.
    destruct (new_in_cycle env w); simpl in Hlength; lia.
Qed.
End BaseCycleMore.

Lemma delivered_send_commits_witness :
  seen_of (@after jonas (env_of page_ok [] noon smtp_up) fresh)
  = seen_of fresh ∪ @keys_in_cycle jonas (env_of page_ok [] noon smtp_up)
  ∧ lock_file (@after jonas (env_of page_ok [] noon smtp_up) fresh)
    = Some ("sent at " +:+ timestamp (env_of page_ok [] noon smtp_up)
            +:+ nl +:+ "New items: "
            +:+ pretty (length (@new_in_cycle jonas
                                  (env_of page_ok [] noon smtp_up) fresh)))
  ∧ ∀ env',
      @fetched jonas (http env')
      = @fetched jonas (http (env_of page_ok [] noon smtp_up)) →
      @new_in_cycle jonas env'
        (@after jonas (env_of page_ok [] noon smtp_up) fresh) = []
      ∧ smtp_attempts
          (@after jonas env'
             (@after jonas (env_of page_ok [] noon smtp_up) fresh))
        = smtp_attempts (@after jonas (env_of page_ok [] noon smtp_up) fresh).
Proof.
  apply (@delivered_send_commits jonas (env_of page_ok [] noon smtp_up) fresh).
  - vm_compute. discriminate.
  - reflexivity.
Defined.

Lemma quiet_cycle_keeps_seen_set_witness :
  seen_products_file
    (@after jonas (env_of page_ok [] noon smtp_down)
       (@after jonas (env_of page_ok [] noon smtp_up) fresh))
  = Stored (elements
              (seen_of (@after jonas (env_of page_ok [] noon smtp_up) fresh)))
  ∧ seen_of
      (@after jonas (env_of page_ok [] noon smtp_down)
         (@after jonas (env_of page_ok [] noon smtp_up) fresh))
    = seen_of (@after jonas (env_of page_ok [] noon smtp_up) fresh)
  ∧ smtp_attempts
      (@after jonas (env_of page_ok [] noon smtp_down)
         (@after jonas (env_of page_ok [] noon smtp_up) fresh))
    = smtp_attempts (@after jonas (env_of page_ok [] noon smtp_up) fresh)
  ∧ lock_file
      (@after jonas (env_of page_ok [] noon smtp_down)
         (@after jonas (env_of page_ok [] noon smtp_up) fresh))
    = lock_file (@after jonas (env_of page_ok [] noon smtp_up) fresh).
Proof.
  apply (@quiet_cycle_keeps_seen_set jonas (env_of page_ok [] noon smtp_down)
           (@after jonas (env_of page_ok [] noon smtp_up) fresh)).
  - vm_compute. discriminate.
  - vm_compute. reflexivity.
Defined.

Lemma cycle_reads_seen_file_only_witness :
  seen_products_file (@after jonas (env_of page_ok [] noon smtp_up) fresh)
  = seen_products_file
      (@after jonas (env_of page_ok [] noon smtp_up)
         (set_lock_file "sent at 2024-04-30 09:00:00" fresh))
  ∧ ∃ sent,
      smtp_attempts (@after jonas (env_of page_ok [] noon smtp_up) fresh)
      = smtp_attempts fresh ++ sent
      ∧ smtp_attempts
          (@after jonas (env_of page_ok [] noon smtp_up)
             (set_lock_file "sent at 2024-04-30 09:00:00" fresh))
        = smtp_attempts (set_lock_file "sent at 2024-04-30 09:00:00" fresh)
          ++ sent.
Proof.
  apply (@cycle_reads_seen_file_only jonas (env_of page_ok [] noon smtp_up)
           fresh (set_lock_file "sent at 2024-04-30 09:00:00" fresh)).
  reflexivity.
Defined.

(** ** More on [TaylorSwiftChecker] *)

Module TaylorSwiftMore.
Import TaylorSwift TaylorSwiftObservations TaylorSwiftCycle TaylorSwiftPages.

Lemma categories_nil env w :
  pages_products (shopify env) = [] →
  new_products (categories env w) = []
  ∧ signed_in_stock (categories env w) = [].
Proof. unfold categories, classified. by intros ->. Qed.

Lemma elem_of_signed_in_stock env w p :
  p ∈ signed_in_stock (categories env w)
  ↔ loop_error (loaded_signed_seen w) (now env)
      (pages_products (shopify env)) = None
    ∧ p ∈ pages_products (shopify env)
    ∧ due (loaded_signed_seen w) (now env) p = true.
Proof.
  unfold categories, classified. rewrite categorize_filter.
  destruct (loop_error _ _ _); simpl.
  - rewrite elem_of_nil. naive_solver.
  - rewrite list_elem_of_filter, Is_true_true. naive_solver.
Qed.

Lemma due_flags signed_seen now p :
  due signed_seen now p = true →
  is_signed p = true ∧ is_available p = true
  ∧ past_cooldown signed_seen now (clean_url p) = Return true.
Proof.
  unfold due. rewrite !andb_true_iff.
  destruct (past_cooldown signed_seen now (clean_url p)) as [[]|];
    naive_solver.
Qed.

(** The value in the signed-seen file after a cycle, as its loader gives
    it, and its entries. *)
Lemma loaded_signed_seen_after env w :
  loaded_signed_seen (after env w)
  = match signed_in_stock (categories env w) with
    | [] => loaded_signed_seen w
    | _ :: _ =>
        if delivered (smtp env) (signed_email env w)
        then VDict (mark_entries (now env) (signed_in_stock (categories env w))
                      (signed_seen_of w))
        else loaded_signed_seen w
    end.
Proof.
  destruct (signed_run_spec env w) as (_ & Hcase).
  destruct (pages_products (shopify env)) as [|p ps] eqn:Hps.
  { destruct (categories_nil env w Hps) as [_ ->].
    unfold loaded_signed_seen. by destruct Hcase as (_ & _ & -> & _). }
  unfold categories in *. destruct (classified env w) as [c|e].
  - destruct Hcase as (_ & _ & _ & Hfile). unfold loaded_signed_seen at 1.
    rewrite Hfile. destruct (signed_in_stock c); [done|].
    by destruct (delivered (smtp env) (signed_email env w)).
  - unfold loaded_signed_seen. by destruct Hcase as (_ & _ & -> & _).
Qed.

Lemma signed_seen_of_after env w :
  signed_seen_of (after env w)
  = match signed_in_stock (categories env w) with
    | [] => signed_seen_of w
    | _ :: _ =>
        if delivered (smtp env) (signed_email env w)
        then mark_entries (now env) (signed_in_stock (categories env w))
               (signed_seen_of w)
        else signed_seen_of w
    end.
Proof.
  unfold signed_seen_of at 1. rewrite loaded_signed_seen_after.
  destruct (signed_in_stock (categories env w)); [done|].
  by destruct (delivered (smtp env) (signed_email env w)).
Qed.

(** The record of the attempts after a cycle, in every case. *)
Lemma signed_run_attempts env w :
  smtp_attempts (after env w)
  = smtp_attempts w
    ++ attempt (smtp env) (signed_in_stock (categories env w))
         (signed_email env w)
    ++ attempt (smtp env) (new_items_sent env w) (new_email env w).
Proof.
  destruct (signed_run_spec env w) as (_ & Hcase).
  destruct (pages_products (shopify env)) as [|p ps] eqn:Hps.
  { unfold new_items_sent. destruct (categories_nil env w Hps) as [-> ->].
    simpl. rewrite app_nil_r. by destruct Hcase as (_ & _ & _ & ->). }
  unfold new_items_sent, categories in *.
  destruct (classified env w) as [c|e].
  - destruct Hcase as (_ & -> & _). by destruct (new_products c).
  - simpl. rewrite app_nil_r. by destruct Hcase as (_ & _ & _ & ->).
Qed.

(** X9. A cycle of [TaylorSwiftChecker.run] whose [fetch_products]
    returns the empty list ends normally and leaves both store files, the
    lock file and the record of the SMTP attempts as they were. *)
Theorem empty_fetch_stops_signed_cycle (env : Env) (w : World) :
  (TaylorSwift.fetch_products (shopify env) w).1 = Return [] →
  (TaylorSwift.run env w).1 = Return tt
  ∧ seen_products_file (after env w) = seen_products_file w
  ∧ signed_seen_file (after env w) = signed_seen_file w
  ∧ smtp_attempts (after env w) = smtp_attempts w
  ∧ lock_file (after env w) = lock_file w.
Proof.
  intros Hempty.
  destruct (shopify_fetch_run (shopify env) w) as (w1 & Hf & _).
  rewrite Hf in Hempty. simpl in Hempty. injection Hempty as Hempty.
  destruct (signed_run_spec env w) as (Hlock & Hcase).
  rewrite Hempty in Hcase. by destruct Hcase as (? & ? & ? & ?).
Qed.

(** X10. The two partitions are made apart.  Which listings are due for
    the signed alert, and whether the test of one of them raises, does not
    depend on the seen set, so a listing seen long ago is alerted again
    when it is due.  Which listings are new, when the loop comes to its
    end, depends neither on the signed-seen mapping nor on the time: they
    are the ones that the loop of the base class finds. *)
Theorem partitions_are_independent (seen seen' : gset string)
    (signed_seen signed_seen' : value) (now now' : float)
    (products : list Product) :
  signed_in_stock <$> categorize seen signed_seen now products
  = signed_in_stock <$> categorize seen' signed_seen now products
  ∧ (∀ c c', categorize seen signed_seen now products = Return c →
             categorize seen signed_seen' now' products = Return c' →
             new_products c = new_products c')
  ∧ (∀ c, categorize seen signed_seen now products = Return c →
          new_products c = (scan seen products).1
          ∧ all_current_urls c = (scan seen products).2).
Proof.
  rewrite !categorize_filter, scan_filter.
  destruct (loop_error signed_seen now products),
    (loop_error signed_seen' now' products); naive_solver.
Qed.

(** X11. No listing is in both messages of a cycle.  What a cycle adds
    to the record of the SMTP attempts is a signed alert built from a
    list [signed] of listings, when that list is not empty, and then a
    new-items message built from a list [new], when that one is not empty;
    both lists are taken from the fetched listings in fetch order, and no
    listing of [new] has the key of a listing of [signed]. *)
Theorem messages_share_no_listing (env : Env) (w : World) :
  ∃ signed new : list Product,
    smtp_attempts (after env w)
    = smtp_attempts w
      ++ attempt (smtp env) signed (signed_email env w)
      ++ attempt (smtp env) new (new_email env w)
    ∧ body (signed_email env w) = _build_signed_email signed
    ∧ body (new_email env w) = build_email_body new
    ∧ signed `sublist_of` pages_products (shopify env)
    ∧ new `sublist_of` pages_products (shopify env)
    ∧ ∀ p q, p ∈ new → q ∈ signed → clean_url p ≠ clean_url q.
Proof.
  exists (signed_in_stock (categories env w)), (new_items_sent env w).
  split; [apply signed_run_attempts|]. split; [done|]. split; [done|].
  unfold new_items_sent, new_non_signed, categories, classified.
  rewrite categorize_filter.
  destruct (loop_error _ _ _); simpl.
  { split; [apply sublist_nil_l|]. split; [apply sublist_nil_l|].
    by intros p q ?%elem_of_nil. }
  split; [apply sublist_filter|].
  split; [etrans; apply sublist_filter|].
  intros p q [Hp _]%list_elem_of_filter Hq Hkey. apply Hp.
  unfold signed_urls. apply elem_of_list_to_set, list_elem_of_fmap. eauto.
Qed.

(** X12. A cycle tries two messages at most, the signed alert before the
    new-items message, and never writes the lock file. *)
Theorem signed_alert_goes_first (env : Env) (w : World) :
  lock_file (after env w) = lock_file w
  ∧ ∃ sent,
      smtp_attempts (after env w) = smtp_attempts w ++ sent
      ∧ (length sent ≤ 2)%nat
      ∧ (∀ m ok, sent !! 1 = Some (m, ok) →
           m = new_email env w
           ∧ sent !! 0
             = Some (signed_email env w,
                     delivered (smtp env) (signed_email env w)))
      ∧ (∀ m ok, sent !! 0 = Some (m, ok) →
           m = signed_email env w ∨ m = new_email env w).
Proof.
  destruct (signed_run_spec env w) as (Hlock & _).
  split; [done|]. eexists. split; [apply signed_run_attempts|].
  unfold attempt.
  destruct (signed_in_stock (categories env w)), (new_items_sent env w);
    simpl; (split; [lia|]); split; intros m ok; try done; naive_solver.
Qed.

(** X13. After a signed alert that [send_email] delivered, each of its
    keys is in the signed-seen mapping with the clock reading of that
    cycle, and a cycle for whose clock reading the test
    [(now - last_alerted) >= SIGNED_COOLDOWN_SECONDS] fails against that
    reading puts no listing with such a key in its signed partition,
    whatever it fetches. *)
Theorem delivered_alert_starts_cooldown (env env' : Env) (w : World)
    (p q : Product) :
  p ∈ signed_in_stock (categories env w) →
  (send_email (smtp env) (subject (signed_email env w))
     (body (signed_email env w)) w).1 = Return true →
  float_ge_int (float_sub (now env') (now env)) SIGNED_COOLDOWN_SECONDS
  = false →
  clean_url q = clean_url p →
  signed_seen_of (after env w) !! clean_url p = Some (VFloat (now env))
  ∧ q ∉ signed_in_stock (categories env' (after env w)).
Proof.
  intros Hp Hsend Hsoon Hkey.
  apply send_email_delivered in Hsend.
  change {| subject := subject (signed_email env w);
            body := body (signed_email env w) |}
    with (signed_email env w) in Hsend.
  assert (signed_seen_of (after env w) !! clean_url p
          = Some (VFloat (now env))) as Hat.
  { rewrite signed_seen_of_after, Hsend.
    destruct (signed_in_stock (categories env w)) as [|s ss] eqn:Hs;
      [by apply elem_of_nil in Hp|].
    rewrite mark_alerted_lookup, decide_True; [done|].
    unfold signed_urls. apply elem_of_list_to_set, list_elem_of_fmap. eauto. }
  split; [done|]. intros Hq.
  destruct (signed_in_stock_due _ _ _ Hq) as (Hdue & _ & Hdict).
  apply due_flags in Hdue as (_ & _ & Hpast).
  rewrite Hdict, Hkey in Hpast.
  rewrite (TaylorSwiftClaims.past_cooldown_float _ _ _ _ Hat) in Hpast.
  congruence.
Qed.

(** The test of the loop, once passed, is passed at every later clock
    reading. *)
Lemma past_cooldown_mono signed_seen now now' key :
  float_le now now' = true →
  past_cooldown signed_seen now key = Return true →
  past_cooldown signed_seen now' key = Return true.
Proof.
  intros Hlater. unfold past_cooldown.
  destruct (get signed_seen key (VInt 0)) as [last|]; [|done]. simpl.
  assert (∀ y, float_ge_int (float_sub now y) SIGNED_COOLDOWN_SECONDS = true →
               float_ge_int (float_sub now' y) SIGNED_COOLDOWN_SECONDS = true)
    as Hmono by (intros y; by apply float_sub_ge_mono).
  unfold float_minus.
  destruct last as [|b|z|y|text|items|entries]; try done.
  - destruct (float_of_int (Z.b2z b)); [|done]. simpl.
    intros [= Hge]. by rewrite Hmono.
  - destruct (float_of_int z); [|done]. simpl.
    intros [= Hge]. by rewrite Hmono.
  - simpl. intros [= Hge]. by rewrite Hmono.
Qed.

(** A cycle that fetches listings and ends normally was not left by an
    exception in its loop. *)
Lemma run_returns_no_error env w :
  pages_products (shopify env) ≠ [] →
  (TaylorSwift.run env w).1 = Return tt →
  loop_error (loaded_signed_seen w) (now env) (pages_products (shopify env))
  = None.
Proof.
  intros Hsome Hends. destruct (signed_run_spec env w) as (_ & Hcase).
  unfold classified in Hcase. rewrite categorize_filter in Hcase.
  destruct (pages_products (shopify env)) as [|x xs]; [done|].
  destruct (loop_error _ _ _); [|done].
  destruct Hcase as (Hraised & _). congruence.
Qed.

(** X14. A signed alert that [send_email] did not deliver leaves the
    signed-seen file as it was, and a listing of that alert is in the
    signed partition of every later cycle that still fetches it and ends
    normally. *)
Theorem failed_alert_is_tried_again (env env' : Env) (w : World)
    (p : Product) :
  p ∈ signed_in_stock (categories env w) →
  (send_email (smtp env) (subject (signed_email env w))
     (body (signed_email env w)) w).1 = Return false →
  float_le (now env) (now env') = true →
  p ∈ pages_products (shopify env') →
  (TaylorSwift.run env' (after env w)).1 = Return tt →
  signed_seen_file (after env w) = signed_seen_file w
  ∧ p ∈ signed_in_stock (categories env' (after env w)).
Proof.
  intros Hp Hsend Hlater Hlisted Hends.
  apply send_email_delivered in Hsend.
  change {| subject := subject (signed_email env w);
            body := body (signed_email env w) |}
    with (signed_email env w) in Hsend.
  assert (signed_seen_file (after env w) = signed_seen_file w) as Hfile.
  { destruct (signed_run_spec env w) as (_ & Hcase).
    destruct (pages_products (shopify env)) as [|x xs];
      [by destruct Hcase as (_ & _ & ? & _)|].
    unfold categories in *. destruct (classified env w) as [c|e];
      [|by destruct Hcase as (_ & _ & ? & _)].
    destruct Hcase as (_ & _ & _ & ->). rewrite Hsend.
    by destruct (signed_in_stock c). }
  split; [done|].
  assert (loaded_signed_seen (after env w) = loaded_signed_seen w) as Hloaded
    by (unfold loaded_signed_seen; by rewrite Hfile).
  apply elem_of_signed_in_stock in Hp as (_ & _ & Hdue).
  apply due_flags in Hdue as (Hs & Ha & Hpast).
  apply elem_of_signed_in_stock. rewrite Hloaded. split; [|split; [done|]].
  - rewrite <- Hloaded. apply run_returns_no_error; [|done].
    intros Hnone. rewrite Hnone in Hlisted. by apply elem_of_nil in Hlisted.
  - unfold due. rewrite Hs, Ha. simpl.
    by rewrite (past_cooldown_mono _ _ _ _ Hlater Hpast).
Qed.

(** X15. Through a cycle of [TaylorSwiftChecker.run] the seen set only
    grows, the signed-seen mapping keeps every key it had, and an entry of
    the mapping is either as it was or the clock reading of this cycle,
    for a key of its signed alert. *)
Theorem signed_cycle_only_adds (env : Env) (w : World) :
  seen_of w ⊆ seen_of (after env w)
  ∧ dom (signed_seen_of w) ⊆ dom (signed_seen_of (after env w))
  ∧ ∀ k T, signed_seen_of (after env w) !! k = Some T →
      signed_seen_of w !! k = Some T
      ∨ (T = VFloat (now env)
         ∧ k ∈ signed_urls (signed_in_stock (categories env w))).
Proof.
  split; [|split].
  - destruct (signed_run_spec env w) as (_ & Hcase).
    destruct (pages_products (shopify env)) as [|p ps].
    { unfold seen_of. by destruct Hcase as (_ & -> & _). }
    unfold categories in *. destruct (classified env w) as [c|e].
    + destruct Hcase as (_ & _ & Hfile & _). unfold seen_of at 2.
      rewrite Hfile, list_to_set_elements_L.
      destruct (new_products c); set_solver.
    + unfold seen_of. by destruct Hcase as (_ & -> & _).
  - rewrite signed_seen_of_after.
    destruct (signed_in_stock (categories env w)) as [|s ss]; [done|].
    destruct (delivered (smtp env) (signed_email env w)); [|done].
    intros k [T Hk]%elem_of_dom. apply elem_of_dom.
    rewrite mark_alerted_lookup. case_decide; eauto.
  - intros k T. rewrite signed_seen_of_after.
    destruct (signed_in_stock (categories env w)) as [|s ss]; [by left|].
    destruct (delivered (smtp env) (signed_email env w)); [|by left].
    rewrite mark_alerted_lookup. case_decide; [|by left].
    intros [= <-]. by right.
Qed.

Lemma pages_products_app pages rest :
  Forall (λ r, full_page r = true) pages →
  pages_products (pages ++ rest)
  = concat (page_listings <$> pages) ++ pages_products rest.
Proof.
  induction 1 as [|r pages Hr _ IH]; [done|]. simpl.
  destruct r as [e|code [|x xs] [e|]]; try done. simpl in *.
  apply bool_decide_eq_true in Hr as ->. simpl.
  by rewrite IH, app_assoc.
Qed.

(** X16. [fetch_products] returns the listings of the pages before the
    first page that does not let the loop go on, followed by what that
    page had converted before it raised; the pages after it are not
    asked for.  A failure on a later page keeps the listings of the pages
    before it. *)
Theorem pages_before_failure_are_kept (pages rest : list page_reply)
    (stop : page_reply) (w : World) :
  Forall (λ r, full_page r = true) pages →
  full_page stop = false →
  (TaylorSwift.fetch_products (pages ++ stop :: rest) w).1
  = Return (concat (page_listings <$> pages) ++ page_listings stop)
  ∧ (TaylorSwift.fetch_products pages w).1
    = Return (concat (page_listings <$> pages)).
Proof.
  intros Hfull Hstop. split.
  - destruct (shopify_fetch_run (pages ++ stop :: rest) w) as (w' & -> & _).
    simpl. f_equal. rewrite (pages_products_app _ _ Hfull). f_equal.
    destruct stop as [e|code converted stopped]; [done|]. simpl in *.
    destruct (decide (code = 200%Z)) as [Hcode|]; [|done].
    destruct converted as [|x xs], stopped as [e|]; try done.
    by rewrite bool_decide_eq_true_2 in Hstop.
  - destruct (shopify_fetch_run pages w) as (w' & -> & _).
    simpl. f_equal. rewrite <- (app_nil_r pages) at 1.
    rewrite (pages_products_app _ _ Hfull). apply app_nil_r.
Qed.



(** X22. For two clock readings from [2^30] up to [2^31] seconds the
    float difference is the exact difference: in these years the test of
    the loop against the reading [T] of a delivered alert compares the
    exact [now - T] with [SIGNED_COOLDOWN_SECONDS]. *)
Theorem cooldown_is_exact_in_this_era (entries : gmap string value)
    (key : string) (now T : Z) :
  this_era (Finite now) → this_era (Finite T) →
  entries !! key = Some (VFloat (Finite T)) →
  float_sub (Finite now) (Finite T) = Finite (now - T)
  ∧ past_cooldown (VDict entries) (Finite now) key
    = Return (bool_decide (SIGNED_COOLDOWN_SECONDS * 2 ^ 1074 ≤ now - T)%Z).
Proof.
  intros (a & [= ->] & Ha) (b & [= ->] & Hb) Hentry.
  assert (float_sub (Finite (a * 2 ^ 1052)) (Finite (b * 2 ^ 1052))
          = Finite (a * 2 ^ 1052 - b * 2 ^ 1052)) as Hsub.
  { cbn [float_sub]. rewrite <- Z.mul_sub_distr_r.
    apply round_exact; [lia|lia|].
    change (2 ^ 2098)%Z with (2 ^ 1046 * 2 ^ 1052)%Z.
    apply Z.mul_lt_mono_pos_r; [done|].
    assert (2 ^ 53 < 2 ^ 1046)%Z by done. lia. }
  split; [done|].
  rewrite (TaylorSwiftClaims.past_cooldown_float _ _ _ _ Hentry), Hsub.
  cbn [float_ge_int]. f_equal.
  by destruct (Z.leb_spec (SIGNED_COOLDOWN_SECONDS * 2 ^ 1074)
                 (a * 2 ^ 1052 - b * 2 ^ 1052));
    [rewrite bool_decide_eq_true_2|rewrite bool_decide_eq_false_2 by lia].
Qed.

End TaylorSwiftMore.

Lemma empty_fetch_stops_signed_cycle_witness :
  (TaylorSwift.run
     (env_of page_ok [PageError (Exception "Read timed out")] noon smtp_up)
     fresh).1 = Return tt
  ∧ seen_products_file
      (TaylorSwiftObservations.after
         (env_of page_ok [PageError (Exception "Read timed out")] noon smtp_up)
         fresh)
    = seen_products_file fresh
  ∧ signed_seen_file
      (TaylorSwiftObservations.after
         (env_of page_ok [PageError (Exception "Read timed out")] noon smtp_up)
         fresh)
    = signed_seen_file fresh
  ∧ smtp_attempts
      (TaylorSwiftObservations.after
         (env_of page_ok [PageError (Exception "Read timed out")] noon smtp_up)
         fresh)
    = smtp_attempts fresh
  ∧ lock_file
      (TaylorSwiftObservations.after
         (env_of page_ok [PageError (Exception "Read timed out")] noon smtp_up)
         fresh)
    = lock_file fresh.
Proof.
  apply (TaylorSwiftMore.empty_fetch_stops_signed_cycle
           (env_of page_ok [PageError (Exception "Read timed out")] noon
              smtp_up) fresh).
  reflexivity.
Defined.

(** A signed CD alerted at noon, and a cycle an hour later. *)
Lemma delivered_alert_starts_cooldown_witness :
  signed_seen_of
    (TaylorSwiftObservations.after
       (env_of page_ok [Page 200 [signed_cd] None] noon smtp_up) fresh)
  !! clean_url signed_cd
  = Some (VFloat
            (now (env_of page_ok [Page 200 [signed_cd] None] noon smtp_up)))
  ∧ signed_cd
    ∉ TaylorSwift.signed_in_stock
        (TaylorSwiftObservations.categories
           (env_of page_ok [Page 200 [signed_cd] None] an_hour_later smtp_up)
           (TaylorSwiftObservations.after
              (env_of page_ok [Page 200 [signed_cd] None] noon smtp_up)
              fresh)).
Proof.
  apply (TaylorSwiftMore.delivered_alert_starts_cooldown
           (env_of page_ok [Page 200 [signed_cd] None] noon smtp_up)
           (env_of page_ok [Page 200 [signed_cd] None] an_hour_later smtp_up)
           fresh signed_cd signed_cd).
  - vm_compute. left.
  - reflexivity.
  - vm_compute. reflexivity.
  - reflexivity.
Defined.

(** A signed CD whose alert met a server that was down, and a cycle a
    minute later. *)
Lemma failed_alert_is_tried_again_witness :
  signed_seen_file
    (TaylorSwiftObservations.after
       (env_of page_ok [Page 200 [signed_cd] None] noon smtp_down) fresh)
  = signed_seen_file fresh
  ∧ signed_cd
    ∈ TaylorSwift.signed_in_stock
        (TaylorSwiftObservations.categories
           (env_of page_ok [Page 200 [signed_cd] None] a_minute_later smtp_up)
           (TaylorSwiftObservations.after
              (env_of page_ok [Page 200 [signed_cd] None] noon smtp_down)
              fresh)).
Proof.
  apply (TaylorSwiftMore.failed_alert_is_tried_again
           (env_of page_ok [Page 200 [signed_cd] None] noon smtp_down)
           (env_of page_ok [Page 200 [signed_cd] None] a_minute_later smtp_up)
           fresh signed_cd).
  - vm_compute. left.
  - reflexivity.
  - vm_compute. reflexivity.
  - vm_compute. left.
  - vm_compute. reflexivity.
Defined.

(** One page of listings, then a request that raises. *)
Lemma pages_before_failure_are_kept_witness :
  (TaylorSwift.fetch_products
     ([Page 200 [cardigan] None]
      ++ PageError (Exception "Read timed out")
         :: [Page 200 [signed_cd] None]) fresh).1
  = Return (concat (TaylorSwiftPages.page_listings
                      <$> [Page 200 [cardigan] None])
            ++ TaylorSwiftPages.page_listings
                 (PageError (Exception "Read timed out")))
  ∧ (TaylorSwift.fetch_products [Page 200 [cardigan] None] fresh).1
    = Return (concat (TaylorSwiftPages.page_listings
                        <$> [Page 200 [cardigan] None])).
Proof.
  apply (TaylorSwiftMore.pages_before_failure_are_kept
           [Page 200 [cardigan] None] [Page 200 [signed_cd] None]
           (PageError (Exception "Read timed out")) fresh).
  - by repeat constructor.
  - reflexivity.
Defined.

(** An alert at noon of the first of May 2024 and a clock one second
    short of two hours later. *)
Lemma cooldown_is_exact_in_this_era_witness :
  float_sub (Finite (1714571999 * 2 ^ 1074)) (Finite (1714564800 * 2 ^ 1074))
  = Finite (1714571999 * 2 ^ 1074 - 1714564800 * 2 ^ 1074)
  ∧ TaylorSwift.past_cooldown
      (VDict {[ "https://store.taylorswift.com/products/signed-cd"
                := VFloat (Finite (1714564800 * 2 ^ 1074)) ]})
      (Finite (1714571999 * 2 ^ 1074))
      "https://store.taylorswift.com/products/signed-cd"
    = Return
        (bool_decide
           (TaylorSwift.SIGNED_COOLDOWN_SECONDS * 2 ^ 1074
            ≤ 1714571999 * 2 ^ 1074 - 1714564800 * 2 ^ 1074)%Z).
Proof.
  apply (TaylorSwiftMore.cooldown_is_exact_in_this_era
           {[ "https://store.taylorswift.com/products/signed-cd"
              := VFloat (Finite (1714564800 * 2 ^ 1074)) ]}
           "https://store.taylorswift.com/products/signed-cd"
           (1714571999 * 2 ^ 1074) (1714564800 * 2 ^ 1074)).
  - exists (1714571999 * 2 ^ 22)%Z. split; [reflexivity|]. split; by vm_compute.
  - exists (1714564800 * 2 ^ 22)%Z. split; [reflexivity|]. split; by vm_compute.
  - reflexivity.
Defined.


(** ** The names of the files *)

Lemma replace_char_clean old new s :
  occurs old new = false → occurs old (replace_char old new s) = false.
Proof.
  intros Hnew. induction s as [|a s IH]; simpl; [done|].
  destruct (Ascii.eqb a old) eqn:E; simpl.
  - revert IH. generalize (replace_char old new s). intros t Ht.
    induction new as [|b new IHnew]; simpl in *; [done|].
    apply orb_false_elim in Hnew as [Hb Hnew]. rewrite Hb. by apply IHnew.
  - by rewrite E.
Qed.

Lemma replace_char_drop_keeps c old s :
  occurs c s = false → occurs c (replace_char old "" s) = false.
Proof.
  induction s as [|a s IH]; simpl; [done|].
  intros [Ha Hs]%orb_false_elim.
  destruct (Ascii.eqb a old); simpl; [by apply IH|].
  rewrite Ha. by apply IH.
Qed.

Lemma append_inj_r (s a b : string) : s +:+ a = s +:+ b → a = b.
Proof. induction s as [|c s IH]; simpl; [done|]. intros [=]. by apply IH. Qed.

Section FileNamesFacts.
Context `{Site}.
Variable lower : string → string.

(** X17. Whatever the name of the site, its safe name holds neither a
    space nor an apostrophe, and the seen-set file, the lock file and the
    signed-seen file of the site, which share a directory, have three
    different names. *)
Theorem file_names_are_clean_and_distinct :
  occurs " " (_safe_name lower) = false
  ∧ occurs "'" (_safe_name lower) = false
  ∧ seen_products_name lower ≠ lock_name lower
  ∧ seen_products_name lower ≠ _signed_seen_name lower
  ∧ lock_name lower ≠ _signed_seen_name lower.
Proof.
  unfold seen_products_name, lock_name, _signed_seen_name, _safe_name.
  split; [|split; [|repeat split]].
  - apply replace_char_drop_keeps. by apply replace_char_clean.
  - by apply replace_char_clean.
  - by intros ?%append_inj_r.
  - by intros ?%append_inj_r.
  - by intros ?%append_inj_r.
Qed.
End FileNamesFacts.

(** The names for two of the sites of the repository. *)
Lemma file_names_of_the_sites :
  @seen_products_name TaylorSwift.site ascii_lower = "taylor_swift_seen.json"
  ∧ @_signed_seen_name TaylorSwift.site ascii_lower
    = "taylor_swift_signed_seen.json"
  ∧ @lock_name jonas ascii_lower = "jonas_brothers_sent.lock"
  ∧ @log_name jonas ascii_lower = "jonas_brothers.log".
Proof. by vm_compute. Qed.

(** ** The runner *)

Module RunCheckerFacts.
Import RunChecker RunCheckerObservations.

Lemma ran_app events more : ran (events ++ more) = ran events ++ ran more.
Proof. apply omap_app. Qed.

Lemma get_checker_class_spec importer key :
  if loads importer key
  then get_checker_class importer key = ([], Done (entry_of key))
  else ∃ prints, get_checker_class importer key = (prints, Exit 1)
                 ∧ ran prints = [].
Proof.
  unfold loads, get_checker_class, entry_of.
  destruct (lookup_checker key CHECKERS) as [[module_name class_name]|].
  - destruct (importer module_name class_name); [|done].
    by eexists.
  - by eexists.
Qed.

Lemma proc_bind_done {A B} events (a : A) (k : A → Proc B) :
  ((events, Done a) ≫= k) = (events ++ (k a).1, (k a).2).
Proof. unfold mbind, Proc_bind. by destruct (k a). Qed.

Lemma proc_bind_exit {A B} events code (k : A → Proc B) :
  ((events, Exit code) ≫= k) = (events, Exit code).
Proof. done. Qed.

Lemma proc_bind_uncaught {A B} events e (k : A → Proc B) :
  ((events, Uncaught e) ≫= k) = (events, Uncaught e).
Proof. done. Qed.

Lemma run_sites_spec importer checker quiet sites :
  ran (run_sites importer checker quiet sites).1
  = entry_of
    <$> (front (passes importer checker quiet) sites
         ++ match find (λ key, negb (passes importer checker quiet key)) sites with
            | Some key => if loads importer key then [key] else []
            | None => []
            end)
  ∧ (run_sites importer checker quiet sites).2
    = match find (λ key, negb (passes importer checker quiet key)) sites with
      | None => Done tt
      | Some key =>
          if loads importer key
          then match checker (entry_of key).1 (entry_of key).2 quiet with
               | Some e => Uncaught e
               | None => Done tt
               end
          else Exit 1
      end.
Proof.
  induction sites as [|key sites [IHran IHend]]; [done|].
  pose proof (get_checker_class_spec importer key) as Hclass.
  cbn [run_sites front find].
  match goal with |- context [mbind _ ?b] => set (banner := b) end.
  assert (∃ prints, banner = (prints, Done tt) ∧ ran prints = [])
    as (prints & -> & Hprints).
  { subst banner. destruct quiet; by eexists. }
  rewrite proc_bind_done.
  destruct (loads importer key) eqn:Hloads.
  - rewrite Hclass, proc_bind_done. unfold run_checker.
    destruct (checker (entry_of key).1 (entry_of key).2 quiet) as [e|] eqn:Hrun.
    + assert (passes importer checker quiet key = false) as ->.
      { unfold passes, returns. by rewrite Hloads, Hrun. }
      rewrite proc_bind_uncaught. cbn [fst snd negb].
      rewrite Hloads, Hrun, !ran_app, Hprints. simpl.
      clear Hrun Hclass. by destruct (entry_of key).
    + assert (passes importer checker quiet key = true) as ->.
      { unfold passes, returns. by rewrite Hloads, Hrun. }
      rewrite proc_bind_done. cbn [fst snd negb].
      rewrite !ran_app, Hprints, IHran, IHend. simpl.
      clear Hrun Hclass IHran IHend. by destruct (entry_of key).
  - assert (passes importer checker quiet key = false) as ->.
    { unfold passes. by rewrite Hloads. }
    destruct Hclass as (errors & -> & Herrors).
    rewrite proc_bind_exit. cbn [fst snd negb].
    by rewrite Hloads, ran_app, Hprints, Herrors.
Qed.

(** X18. A run of the script that does not list the sites starts the
    checkers of the sites it goes through in order.  It stops at the first
    site whose class it cannot get, unknown or not importable, with exit
    status 1 and without starting a checker for it; and it stops at the
    first site whose checker raises, with that exception uncaught.  The
    sites after that one are not run.  It ends normally exactly when every
    site gives its class and every checker returns. *)
Theorem first_bad_site_stops_the_run (importer : string → string → option exn)
    (checker : string → string → bool → option exn) (args : Args) :
  arg_list args = false →
  ran (main importer checker args).1
  = entry_of
    <$> (front (passes importer checker (arg_quiet args)) (sites_to_run args)
         ++ match find (λ key, negb (passes importer checker (arg_quiet args) key))
                    (sites_to_run args) with
            | Some key => if loads importer key then [key] else []
            | None => []
            end)
  ∧ (main importer checker args).2
    = match find (λ key, negb (passes importer checker (arg_quiet args) key))
              (sites_to_run args) with
      | None => Done tt
      | Some key =>
          if loads importer key
          then match checker (entry_of key).1 (entry_of key).2
                       (arg_quiet args) with
               | Some e => Uncaught e
               | None => Done tt
               end
          else Exit 1
      end.
Proof.
  intros Hlist. unfold main. rewrite Hlist. apply run_sites_spec.
Qed.
End RunCheckerFacts.

(** The sites taylor, jonas and rolemodel, in that order, over the classes
    of the repository, when the checker of the first raises: it is
    started, the exception ends the script, and the other two sites are not
    reached. *)
Lemma first_bad_site_stops_the_run_witness :
  RunCheckerObservations.ran
    (RunChecker.main RunCheckerObservations.repository_importer
       RunCheckerObservations.taylor_raises
       {| RunChecker.arg_sites := ["taylor"; "jonas"; "rolemodel"];
          RunChecker.arg_list := false;
          RunChecker.arg_quiet := true; RunChecker.arg_all := false |}).1
  = [ ("sites.taylor_swift", "TaylorSwiftChecker") ]
  ∧ (RunChecker.main RunCheckerObservations.repository_importer
       RunCheckerObservations.taylor_raises
       {| RunChecker.arg_sites := ["taylor"; "jonas"; "rolemodel"];
          RunChecker.arg_list := false;
          RunChecker.arg_quiet := true; RunChecker.arg_all := false |}).2
    = RunChecker.Uncaught
        (Exception "'list' object has no attribute 'get'").
Proof.
  apply (RunCheckerFacts.first_bad_site_stops_the_run
           RunCheckerObservations.repository_importer
           RunCheckerObservations.taylor_raises
           {| RunChecker.arg_sites := ["taylor"; "jonas"; "rolemodel"];
              RunChecker.arg_list := false;
              RunChecker.arg_quiet := true; RunChecker.arg_all := false |}).
  reflexivity.
Defined.

(** The run without arguments over the classes of the repository, with
    checkers that return: it stops at the site whose module is not
    there. *)
Lemma default_run_of_the_repository :
  RunCheckerObservations.ran
    (RunChecker.main RunCheckerObservations.repository_importer
       (λ _ _ _, None)
       {| RunChecker.arg_sites := []; RunChecker.arg_list := false;
          RunChecker.arg_quiet := false; RunChecker.arg_all := false |}).1
  = [ ("sites.jonas_brothers", "JonasBrothersChecker");
      ("sites.banquet_records", "NoahKahanChecker");
      ("sites.noah_kahan_store", "NoahKahanStoreChecker");
      ("sites.benson_boone", "BensonBooneChecker");
      ("sites.gracie_abrams", "GracieAbramsChecker") ]
  ∧ (RunChecker.main RunCheckerObservations.repository_importer
       (λ _ _ _, None)
       {| RunChecker.arg_sites := []; RunChecker.arg_list := false;
          RunChecker.arg_quiet := false; RunChecker.arg_all := false |}).2
    = RunChecker.Exit 1.
Proof. by vm_compute. Qed.

(** ** The notifier, the signed alert and a store that is lost *)


(** A server that takes the message and then answers QUIT with 421: the
    message went out, both lines are in the log and [send_email] returns
    [False]. *)
Lemma bad_quit_counts_as_failure :
  send_email smtp_bad_quit "subject" "body" fresh
  = (Return false,
     {| seen_products_file := Absent; signed_seen_file := Absent;
        lock_file := None;
        log_file := [ "Connecting to SMTP server...";
                      "Email sent successfully!";
                      "Failed to send email: (421, b'Service not available')" ];
        smtp_attempts := [({| subject := "subject"; body := "body" |}, false)] |})
  ∧ went_out smtp_bad_quit {| subject := "subject"; body := "body" |} = true.
Proof. by vm_compute. Qed.

Lemma chunks_lookup {A B} (f : nat * A → list B) (n i : nat) (l : list A)
    (k j : nat) (x : A) :
  (∀ e, length (f e) = n) → l !! k = Some x → (j < n)%nat →
  concat (f <$> enumerate i l) !! (n * k + j) = f (i + k, x) !! j.
Proof.
  intros Hn. revert i k.
  induction l as [|y l IH]; intros i k Hk Hj; [done|].
  simpl enumerate. rewrite fmap_cons. simpl concat.
  destruct k as [|k]; simpl in Hk.
  - injection Hk as ->. rewrite Nat.mul_0_r, Nat.add_0_r. simpl.
    by rewrite lookup_app_l by (rewrite Hn; lia).
  - rewrite lookup_app_r by (rewrite Hn; lia).
    rewrite Hn. replace (n * S k + j - n) with (n * k + j) by lia.
    rewrite (IH (S i) k Hk Hj). by replace (S i + k) with (i + S k) by lia.
Qed.

Lemma chunks_length {A B} (f : nat * A → list B) (n i : nat) (l : list A) :
  (∀ e, length (f e) = n) →
  length (concat (f <$> enumerate i l)) = n * length l.
Proof.
  intros Hn. revert i. induction l as [|y l IH]; intros i; simpl; [lia|].
  rewrite length_app, Hn, IH. lia.
Qed.

Module SignedAlert.
Import TaylorSwift TaylorSwiftObservations TaylorSwiftCycle TaylorSwiftMore.

Lemma signed_lines_length entry : length (signed_lines entry) = 5.
Proof. by destruct entry. Qed.

(** X20. The body of the signed alert of a cycle is six opening lines,
    five lines for each listing of the signed partition and three closing
    lines; the listing at position [k] is numbered [k + 1], and its status
    line always says that it is in stock: the cycle never shows a listing
    as sold out. *)
Theorem signed_alert_shows_in_stock_only (env : Env) (w : World) :
  ∃ lines,
    body (signed_email env w) = join_lines lines
    ∧ length lines = 5 * length (signed_in_stock (categories env w)) + 9
    ∧ ∀ k p, signed_in_stock (categories env w) !! k = Some p →
        lines !! (6 + 5 * k) = Some (pretty (S k) +:+ ". " +:+ title p)
        ∧ lines !! (8 + 5 * k) = Some ("   Link: " +:+ url p)
        ∧ lines !! (9 + 5 * k) = Some "   Status: ✅ IN STOCK".
Proof.
  eexists. split; [reflexivity|]. split.
  - rewrite !length_app, (chunks_length _ 5) by apply signed_lines_length.
    simpl. lia.
  - intros k p Hk.
    assert (is_available p = true) as Hav.
    { apply list_elem_of_lookup_2, elem_of_signed_in_stock in Hk.
      destruct Hk as (_ & _ & Hdue). by apply due_flags in Hdue as (_ & ? & _). }
    assert (∀ j, (j < 5)%nat →
      ([ "🚨 SIGNED TAYLOR SWIFT ITEMS ARE IN STOCK! 🚨"; "";
         "GO GO GO! These signed items are currently showing as AVAILABLE:";
         ""; str_repeat "=" 50; "" ]
       ++ concat (signed_lines
                  <$> enumerate 1 (signed_in_stock (categories env w)))
       ++ [ str_repeat "=" 50; nl +:+ "Store: " +:+ base_url;
            nl +:+ "(You will be re-alerted every 2 hours while items remain in stock)" ])
      !! (6 + (5 * k + j))
      = signed_lines (S k, p) !! j) as Hline.
    { intros j Hj. rewrite lookup_app_r by (simpl; lia).
      replace (6 + (5 * k + j) - _) with (5 * k + j) by (simpl; lia).
      rewrite lookup_app_l.
      - by rewrite (chunks_lookup _ 5 1 _ k j p signed_lines_length Hk Hj).
      - rewrite (chunks_length _ 5) by apply signed_lines_length.
        apply lookup_lt_Some in Hk. lia. }
    repeat split.
    + replace (6 + 5 * k) with (6 + (5 * k + 0)) by lia.
      by rewrite Hline by lia.
    + replace (8 + 5 * k) with (6 + (5 * k + 2)) by lia.
      by rewrite Hline by lia.
    + replace (9 + 5 * k) with (6 + (5 * k + 3)) by lia.
      rewrite Hline by lia. simpl. by rewrite Hav.
Qed.
End SignedAlert.

Section LostStore.
Context `{Site}.

(** X21. A cycle that finds no seen-set file, or one that it cannot read,
    takes every listing it fetches as new; when the message about them is
    delivered the file is written anew with their keys. *)
Theorem lost_store_makes_everything_new (env : Env) (w : World) :
  seen_of w = ∅ →
  new_in_cycle env w = fetched (http env)
  ∧ (fetched (http env) ≠ [] →
     delivered (smtp env) (new_items_email env w) = true →
     seen_products_file (after env w)
     = Stored (elements (keys_in_cycle env))).
Proof.
  intros Hlost.
  assert (new_in_cycle env w = fetched (http env)) as Hall.
  { unfold new_in_cycle. rewrite scan_filter, Hlost. simpl.
    induction (fetched (http env)) as [|p ps IH]; [done|].
    rewrite filter_cons, decide_True by set_solver. by rewrite IH. }
  split; [done|]. intros Hsome Hsent.
  destruct (run_spec env w) as (_ & _ & Hcase).
  rewrite Hall in Hcase.
  destruct (fetched (http env)) as [|p ps]; [done|].
  cbv zeta in Hcase. rewrite Hsent in Hcase. destruct Hcase as (_ & ->).
  rewrite Hlost. f_equal. f_equal. set_solver.
Qed.
End LostStore.

(** A seen-set file that cannot be decoded. *)
Lemma lost_store_makes_everything_new_witness :
  @new_in_cycle jonas (env_of page_ok [] noon smtp_up)
    (set_seen_products_file
       (Damaged (Exception "Expecting value: line 1 column 1 (char 0)"))
       fresh)
  = @fetched jonas (http (env_of page_ok [] noon smtp_up))
  ∧ (@fetched jonas (http (env_of page_ok [] noon smtp_up)) ≠ [] →
     delivered (smtp (env_of page_ok [] noon smtp_up))
       (@new_items_email jonas (env_of page_ok [] noon smtp_up)
          (set_seen_products_file
             (Damaged (Exception "Expecting value: line 1 column 1 (char 0)"))
             fresh)) = true →
     seen_products_file
       (@after jonas (env_of page_ok [] noon smtp_up)
          (set_seen_products_file
             (Damaged (Exception "Expecting value: line 1 column 1 (char 0)"))
             fresh))
     = Stored (elements (@keys_in_cycle jonas (env_of page_ok [] noon smtp_up)))).
Proof.
  apply (@lost_store_makes_everything_new jonas
           (env_of page_ok [] noon smtp_up)
           (set_seen_products_file
              (Damaged (Exception "Expecting value: line 1 column 1 (char 0)"))
              fresh)).
  reflexivity.
Defined.
